(** * display_oled: page navigation, text layout and buzzer feedback

    A shallow embedding of [display_oled.c] (BitDogLab / RP2040 firmware):
    the polling loop of [main], the text layout routine [oled_println_buf],
    the page renderer [render_page] and the tone generator [play_tone],
    followed by the properties of these functions. *)

From Stdlib Require Import ZArith List Bool Lia.
From Stdlib Require Import Ascii String.
From Stdlib Require Import DecimalString.
From Stdlib Require Import SpecFloat.
Import ListNotations.

Local Open Scope Z_scope.

(* ====================================================================== *)
(** * 1. Machine integers                                                  *)
(* ====================================================================== *)

(** [int] is a 32-bit two's complement integer on the RP2040. *)
Definition INT_MIN : Z := - 2 ^ 31.
Definition INT_MAX : Z := 2 ^ 31 - 1.

(** The value of an [int] (resp. [int64_t]) expression whose mathematical
    result is [z]: reduced modulo [2^32] (resp. [2^64]) into the signed
    range. *)
Definition int_wrap (z : Z) : Z := (z + 2 ^ 31) mod 2 ^ 32 - 2 ^ 31.
Definition int64_wrap (z : Z) : Z := (z + 2 ^ 63) mod 2 ^ 64 - 2 ^ 63.

(** Unsigned arithmetic is modular. *)
Definition uint32_wrap (z : Z) : Z := z mod 2 ^ 32.
Definition uint64_wrap (z : Z) : Z := z mod 2 ^ 64.

(** Undefined behaviour is [None]: a function that may run into it
    returns an [option], and the calls are sequenced by [bind]. *)
Definition bind {A B : Type} (m : option A) (k : A -> option B) : option B :=
  match m with
  | Some a => k a
  | None => None
  end.

Notation "x <- m ;; k" := (bind m (fun x => k))
  (at level 61, m at next level, right associativity).
Notation "' pat <- m ;; k" := (bind m (fun x => let 'pat := x in k))
  (at level 61, pat pattern, m at next level, right associativity).

(* ====================================================================== *)
(** * 2. Hardware and interface parameters                                 *)
(* ====================================================================== *)

Definition BUTTON_A_PIN : Z := 5.
Definition BUTTON_B_PIN : Z := 6.
Definition BUZZER_PIN : Z := 10.

Definition DEBOUNCE_MS : Z := 180.
Definition LINE_H : Z := 8.

(* ====================================================================== *)
(** * 3. Page contents and pagination state                                *)
(* ====================================================================== *)

(** ['\n'] and the string terminator ['\0']. *)
Definition NL : ascii := "010"%char.
Definition NUL : ascii := "000"%char.

(** A C string literal is modelled by the list of its characters; the
    terminating ['\0'] is implicit at the end of the list. *)
Definition cstring := list ascii.

Definition lit (s : string) : cstring := list_ascii_of_string s.

(** A line of a page literal, with its ['\n']. *)
Definition ln (s : string) : cstring := lit s ++ [NL].

Definition PAGES : list cstring :=
  [ ln "              " ++
    ln "|Bem vindo! |" ++
    ln "|            |" ++
    ln "|ALUNO    |" ++
    ln "|            |" ++
    ln "|TADS Info 2B|" ++
    ln "              ";

    ln "Pagina 2" ++ [NL] ++
    ln "Com programacao " ++ [NL] ++
    ln "e robotica" ++
    ln "                ";

    ln "Pagina 3" ++ [NL] ++
    lit "O ceu e limite.";

    ln "Pagina 4" ++ [NL] ++
    lit "Obrigado" ].

(** [sizeof(PAGES) / sizeof(PAGES[0])]. *)
Definition NUM_PAGES : Z := Z.of_nat (List.length PAGES).

(* ====================================================================== *)
(** * 4. Single-precision floating point                                   *)
(* ====================================================================== *)

(** C's [float] is IEEE 754 binary32: 24 bits of precision, infinities at
    exponent 128, operations rounded to nearest, ties to even.  The
    operations are those of the standard library's specification of
    floating-point arithmetic, instantiated at these parameters. *)
Definition float32 : Type := spec_float.

Definition prec32 : Z := 24.
Definition emax32 : Z := 128.

Definition f32_mul : float32 -> float32 -> float32 := SFmul prec32 emax32.
Definition f32_div : float32 -> float32 -> float32 := SFdiv prec32 emax32.
Definition f32_ltb : float32 -> float32 -> bool := SFltb.
Definition f32_leb : float32 -> float32 -> bool := SFleb.

(** [(float)z] for an integer [z]. *)
Definition f32_of_Z (z : Z) : float32 :=
  binary_normalize prec32 emax32 z 0 false.

(** The literals [0.0f], [1.0f], [4.0f], [16.0f] and [0.35f]; the last one
    is the binary32 number nearest to 35/100. *)
Definition f32_zero : float32 := S754_zero false.
Definition f32_one : float32 := f32_of_Z 1.
Definition f32_4 : float32 := f32_of_Z 4.
Definition f32_16 : float32 := f32_of_Z 16.
Definition f32_0_35 : float32 := f32_div (f32_of_Z 35) (f32_of_Z 100).

(** The integral part of a finite float, truncated towards zero. *)
Definition f32_trunc (f : float32) : option Z :=
  match f with
  | S754_zero _ => Some 0
  | S754_finite s m e =>
      let a := match e with
               | Z0 => Zpos m
               | Zpos _ => Zpos m * 2 ^ e
               | Zneg _ => Zpos m / 2 ^ (- e)
               end in
      Some (if s then - a else a)
  | S754_infinity _ | S754_nan => None
  end.

(** [(uint32_t)f].  The conversion is defined only when the integral part
    of [f] is representable in [uint32_t]; [None] stands for the cases C
    leaves undefined. *)
Definition f32_to_uint32 (f : float32) : option Z :=
  match f32_trunc f with
  | Some v => if (0 <=? v) && (v <? 2 ^ 32) then Some v else None
  | None => None
  end.

(* ====================================================================== *)
(** * 5. Buzzer (PWM)                                                      *)
(* ====================================================================== *)

(** What the functions of the file do to the peripherals, call by call.
    The PWM calls are those made on [buzzer_slice] and [BUZZER_PIN]; the
    display calls are those made on the frame buffer [ssd]. *)
Inductive hw_event : Type :=
| Pwm_set_clkdiv (clk_div : float32)
| Pwm_set_wrap (top : Z)
| Pwm_set_gpio_level (pin : Z) (level : Z)
| Sleep_ms (ms : Z)
| Memset_ssd
| Ssd1306_draw_string (x y : Z) (s : cstring)
| Render_on_display.

(** [(uint32_t)((float)clk_sys / (clk_div * (float)freq_hz)) - 1u]. *)
Definition pwm_top (clk_sys : Z) (clk_div : float32) (freq_hz : Z)
  : option Z :=
  q <- f32_to_uint32
         (f32_div (f32_of_Z clk_sys) (f32_mul clk_div (f32_of_Z freq_hz))) ;;
  Some (uint32_wrap (q - 1)).

(** The divider and the wrap value chosen by [play_tone]. *)
Definition pwm_config (freq_hz : Z) : option (float32 * Z) :=
  let clk_sys := 125000000 in
  let clk_div := f32_4 in
  top <- pwm_top clk_sys clk_div freq_hz ;;
  if 65535 <? top then
    let clk_div := f32_16 in
    top <- pwm_top clk_sys clk_div freq_hz ;;
    Some (clk_div, if 65535 <? top then 65535 else top)
  else Some (clk_div, top).

(** The two [if]s on [duty]. *)
Definition clamp_duty (duty : float32) : float32 :=
  let duty := if f32_ltb duty f32_zero then f32_zero else duty in
  let duty := if f32_ltb f32_one duty then f32_one else duty in
  duty.

(** [(uint32_t)((float)top * duty)]. *)
Definition pwm_level (top : Z) (duty : float32) : option Z :=
  f32_to_uint32 (f32_mul (f32_of_Z top) duty).

(** [play_tone(freq_hz, ms, duty)].  The arguments are the values of the
    parameters, already converted to [uint32_t] and [uint16_t]. *)
Definition play_tone (freq_hz ms : Z) (duty : float32)
  : option (list hw_event) :=
  if freq_hz =? 0 then Some [Sleep_ms ms]
  else
    '(clk_div, top) <- pwm_config freq_hz ;;
    let duty := clamp_duty duty in
    level <- pwm_level top duty ;;
    Some [ Pwm_set_clkdiv clk_div;
           Pwm_set_wrap top;
           Pwm_set_gpio_level BUZZER_PIN level;
           Sleep_ms ms;
           Pwm_set_gpio_level BUZZER_PIN 0 ].

Definition beep_first_page : option (list hw_event) :=
  play_tone 500 90 f32_0_35.

Definition beep_last_page : option (list hw_event) :=
  play_tone 1200 90 f32_0_35.

(** The events that configure or drive the PWM output. *)
Definition is_pwm_event (ev : hw_event) : bool :=
  match ev with
  | Pwm_set_clkdiv _ | Pwm_set_wrap _ | Pwm_set_gpio_level _ _ => true
  | Sleep_ms _ | Memset_ssd | Ssd1306_draw_string _ _ _ | Render_on_display =>
      false
  end.

(** A binary32 number with a full 24-bit significand, positive, whose
    exponent lies between [lo] and [hi]. *)
Definition normal32 (lo hi : Z) (f : float32) : Prop :=
  exists (m : positive) (e : Z),
    f = S754_finite false m e /\
    2 ^ 23 <= Zpos m < 2 ^ 24 /\
    lo <= e <= hi.

(** A quiet NaN, for the examples. *)
Definition f32_nan : float32 := S754_nan.

(* ====================================================================== *)
(** * 6. Text drawing and page rendering                                   *)
(* ====================================================================== *)

Definition is_nul (c : ascii) : bool := Ascii.eqb c NUL.
Definition is_nl (c : ascii) : bool := Ascii.eqb c NL.

(** [sizeof(linebuf)]. *)
Definition LINEBUF_SIZE : Z := 128.

(** [char linebuf[128] = {0}]. *)
Definition linebuf_init : list ascii := repeat NUL (Z.to_nat LINEBUF_SIZE).

(** [memcpy(dst, src, n)] into the array [dst], from the characters [src]
    that follow the source pointer.  [None] when the copy would run past
    the end of either. *)
Definition memcpy (dst src : list ascii) (n : nat) : option (list ascii) :=
  if ((n <=? List.length dst) && (n <=? List.length src))%nat
  then Some (firstn n src ++ skipn n dst)
  else None.

(** [buf[i] = c].  [None] when [i] is not an index of the array. *)
Definition store (buf : list ascii) (i : Z) (c : ascii)
  : option (list ascii) :=
  if (0 <=? i) && (i <? Z.of_nat (List.length buf))
  then Some (firstn (Z.to_nat i) buf ++ c :: skipn (S (Z.to_nat i)) buf)
  else None.

(** The C string held by a character array: the characters before its
    first ['\0'].  [None] when the array holds no terminator. *)
Fixpoint strz (buf : list ascii) : option cstring :=
  match buf with
  | [] => None
  | c :: buf' =>
      if is_nul c then Some []
      else match strz buf' with
           | Some s => Some (c :: s)
           | None => None
           end
  end.

(** The block that copies [len] characters from [start] into [linebuf],
    terminates them and draws them; the source has it twice, inside the
    loop and after it:
<<
    if (len >= (int)sizeof(linebuf)) len = (int)sizeof(linebuf) - 1;
    memcpy(linebuf, start, len);
    linebuf[len] = '\0';
    ssd1306_draw_string(ssd, x, y, linebuf);
>>
    [from_start] is what the pointer [start] points to; [len] is an [int],
    converted to [size_t] by the call of [memcpy]. *)
Definition copy_and_draw (x y : Z) (from_start : list ascii) (len : Z)
    (linebuf : list ascii) : option (hw_event * list ascii) :=
  let len := if LINEBUF_SIZE <=? len then int_wrap (LINEBUF_SIZE - 1)
             else len in
  linebuf <- memcpy linebuf from_start (Z.to_nat (uint32_wrap len)) ;;
  linebuf <- store linebuf len NUL ;;
  s <- strz linebuf ;;
  Some (Ssd1306_draw_string x y s, linebuf).

(** After the loop: the last line, when the text does not end with a
    line break. *)
Definition println_last (x : Z) (text : cstring) (start p : nat) (y : Z)
    (linebuf : list ascii) : option (list hw_event) :=
  if (start <? p)%nat then
    let len := int_wrap (Z.of_nat p - Z.of_nat start) in
    '(ev, _) <- copy_and_draw x y (skipn start text) len linebuf ;;
    Some [ev]
  else Some [].

(** The loop [while ( *p )].  [start] and [p] are offsets into [text] and
    [rest] is what [p] points to; the end of the list is the terminator of
    the string. *)
Fixpoint println_loop (x : Z) (text rest : cstring) (start p : nat) (y : Z)
    (linebuf : list ascii) {struct rest} : option (list hw_event) :=
  match rest with
  | [] => println_last x text start p y linebuf
  | c :: rest' =>
      if is_nul c then println_last x text start p y linebuf
      else if is_nl c then
        let len := int_wrap (Z.of_nat p - Z.of_nat start) in
        '(drawn, linebuf) <-
          (if 0 <? len
           then '(ev, linebuf) <-
                  copy_and_draw x y (skipn start text) len linebuf ;;
                Some ([ev], linebuf)
           else Some ([], linebuf)) ;;
        evs <- println_loop x text rest' (S p) (S p)
                 (int_wrap (y + LINE_H)) linebuf ;;
        Some (drawn ++ evs)
      else println_loop x text rest' start (S p) y linebuf
  end.

(** [oled_println_buf(ssd, x, y, text)]: the calls of
    [ssd1306_draw_string] it makes, or [None] if it accesses [linebuf]
    out of its bounds. *)
Definition oled_println_buf (x y : Z) (text : cstring)
  : option (list hw_event) :=
  println_loop x text text 0 0 y linebuf_init.

(** [%d] of an [int]. *)
Definition fmt_d (z : Z) : cstring :=
  lit (NilZero.string_of_int (Z.to_int z)).

(** [snprintf(footer, size, "A=Prox B=Voltar  %d/%d", a, b)]: at most
    [size - 1] characters are stored. *)
Definition snprintf_footer (size : nat) (a b : Z) : cstring :=
  firstn (size - 1)
    (lit "A=Prox B=Voltar  " ++ fmt_d a ++ lit "/" ++ fmt_d b).

(** [sizeof(footer)]. *)
Definition FOOTER_SIZE : nat := 32.

(** [PAGES[page_index]]; [None] outside the array. *)
Definition page_at (page_index : Z) : option cstring :=
  if page_index <? 0 then None else nth_error PAGES (Z.to_nat page_index).

(** [render_page(ssd, area, page_index)]. *)
Definition render_page (page_index : Z) : option (list hw_event) :=
  text <- page_at page_index ;;
  body <- oled_println_buf 5 0 text ;;
  let footer :=
    snprintf_footer FOOTER_SIZE (int_wrap (page_index + 1)) NUM_PAGES in
  Some ([Memset_ssd] ++ body
        ++ [Ssd1306_draw_string 0 56 footer; Render_on_display]).

(** ** The layout, as a specification *)

(** The text of a C string: what precedes the first ['\0']. *)
Fixpoint c_str (s : list ascii) : cstring :=
  match s with
  | [] => []
  | c :: s' => if is_nul c then [] else c :: c_str s'
  end.

(** The fragments between line breaks; the last one is what follows the
    last break, possibly empty. *)
Fixpoint split_lines (s : cstring) : list cstring :=
  match s with
  | [] => [[]]
  | c :: s' =>
      if is_nl c then [] :: split_lines s'
      else match split_lines s' with
           | l :: ls => (c :: l) :: ls
           | [] => [[c]]
           end
  end.

Definition newline_count (s : cstring) : nat :=
  List.length (filter is_nl s).

(** The line entries: each fragment with its vertical offset, one
    [LINE_H] below the previous one ([int] addition). *)
Fixpoint layout (y : Z) (lines : list cstring) : list (cstring * Z) :=
  match lines with
  | [] => []
  | l :: ls => (l, y) :: layout (int_wrap (y + LINE_H)) ls
  end.

(** The longest line that fits [linebuf] with its terminator. *)
Definition MAX_LINE : nat := 127.

(** What is drawn for an entry: nothing for an empty line, otherwise its
    first [MAX_LINE] characters. *)
Definition draw_entry (x : Z) (entry : cstring * Z) : list hw_event :=
  match fst entry with
  | [] => []
  | _ :: _ =>
      [Ssd1306_draw_string x (snd entry) (firstn MAX_LINE (fst entry))]
  end.

Definition draw_entries (x : Z) (entries : list (cstring * Z))
  : list hw_event :=
  flat_map (draw_entry x) entries.

(** The inverse of [split_lines]: the lines, separated by line breaks. *)
Fixpoint join_lines (lines : list cstring) : cstring :=
  match lines with
  | [] => []
  | [l] => l
  | l :: ls => l ++ NL :: join_lines ls
  end.

(** A character that is neither the terminator nor a line break. *)
Definition plain (c : ascii) : Prop := is_nul c = false /\ is_nl c = false.

(** The string passed to a call of [ssd1306_draw_string]. *)
Definition drawn_length_ok (ev : hw_event) : Prop :=
  match ev with
  | Ssd1306_draw_string _ _ s => (List.length s <= MAX_LINE)%nat
  | _ => False
  end.

(** A text with three line breaks, two of them consecutive:
    ["ab\n\ncd\n"]. *)
Definition text_ab_cd : cstring := lit "ab" ++ [NL; NL] ++ lit "cd" ++ [NL].

(** A single line of 300 characters. *)
Definition text_long : cstring := repeat "a"%char 300.

(* ====================================================================== *)
(** * 7. The polling loop of [main]                                        *)
(* ====================================================================== *)

(** The two variables that live across iterations of [while (true)]:
    the global [current_page] and the local [last_change] of [main]
    (an [absolute_time_t], microseconds since boot on 64 bits). *)
Record main_state : Type := mk_state {
  current_page : Z;
  last_change : Z
}.

(** What one iteration reads from the outside world: the pin levels
    returned by [gpio_get], the clock value returned by the
    [get_absolute_time()] of the debounce test and the one returned by the
    [get_absolute_time()] stored into [last_change] (the latter is read
    after the boundary beep, which blocks for its whole duration). *)
Record tick_env : Type := mk_env {
  gpio_get : Z -> bool;
  time_at_check : Z;
  time_at_mark : Z
}.

(** The calls an iteration makes to the other functions of the file, in
    program order. *)
Inductive call : Type :=
| Call_beep_first_page
| Call_beep_last_page
| Call_render_page (page_index : Z)
| Call_sleep_ms (ms : Z).

(** [button_pressed]: the buttons are wired with pull-ups, pressed is the
    low level. *)
Definition button_pressed (env : tick_env) (pin : Z) : bool :=
  negb (gpio_get env pin).

(** [absolute_time_diff_us(from, to)] of the pico SDK:
    [(int64_t)(to_us_since_boot(to) - to_us_since_boot(from))]. *)
Definition absolute_time_diff_us (from to : Z) : Z :=
  int64_wrap (uint64_wrap (to - from)).

(** [absolute_time_diff_us(last_change, get_absolute_time()) / 1000 >
    DEBOUNCE_MS]; the division is C's, truncating towards zero. *)
Definition debounce_elapsed (last now : Z) : bool :=
  DEBOUNCE_MS <? Z.quot (absolute_time_diff_us last now) 1000.

(** The body of [while (true)].  The first component of the inner triple
    is the new [current_page], the second the flag [updated], the third
    the beep played inside the branch. *)
Definition loop_body (env : tick_env) (st : main_state)
  : main_state * list call :=
  let '(st1, updated, beeps) :=
    if button_pressed env BUTTON_A_PIN then
      if debounce_elapsed (last_change st) (time_at_check env) then
        let '(page, updated, beeps) :=
          if current_page st <? NUM_PAGES - 1
          then (int_wrap (current_page st + 1), true, [])
          else (current_page st, false, [Call_beep_last_page]) in
        (mk_state page (time_at_mark env), updated, beeps)
      else (st, false, [])
    else if button_pressed env BUTTON_B_PIN then
      if debounce_elapsed (last_change st) (time_at_check env) then
        let '(page, updated, beeps) :=
          if 0 <? current_page st
          then (int_wrap (current_page st - 1), true, [])
          else (current_page st, false, [Call_beep_first_page]) in
        (mk_state page (time_at_mark env), updated, beeps)
      else (st, false, [])
    else (st, false, [])
  in
  (st1,
   beeps
   ++ (if updated : bool then [Call_render_page (current_page st1)] else [])
   ++ [Call_sleep_ms 10]).

(** The state in which [main] enters the loop: [current_page] is still its
    initialiser and [last_change] holds the clock value [t0] read just
    before the loop; page 0 has been rendered and the first-page beep
    played once. *)
Definition main_init (t0 : Z) : main_state * list call :=
  (mk_state 0 t0, [Call_render_page 0; Call_beep_first_page]).

(** Running the loop over the successive readings [envs]. *)
Fixpoint main_loop (envs : list tick_env) (st : main_state)
  : main_state * list call :=
  match envs with
  | [] => (st, [])
  | env :: envs' =>
      let '(st1, calls1) := loop_body env st in
      let '(st2, calls2) := main_loop envs' st1 in
      (st2, calls1 ++ calls2)
  end.

Definition main (t0 : Z) (envs : list tick_env) : main_state * list call :=
  let '(st0, calls0) := main_init t0 in
  let '(st, calls) := main_loop envs st0 in
  (st, calls0 ++ calls).

(** The states the loop can be in at the top of an iteration. *)
Inductive reachable : main_state -> Prop :=
| reachable_init : forall t0, reachable (fst (main_init t0))
| reachable_step : forall env st,
    reachable st -> reachable (fst (loop_body env st)).

(** A press that passes the debounce test, for each button.  Button B is
    only looked at when button A is not pressed. *)
Definition qualifying_next (env : tick_env) (st : main_state) : Prop :=
  button_pressed env BUTTON_A_PIN = true /\
  debounce_elapsed (last_change st) (time_at_check env) = true.

Definition qualifying_previous (env : tick_env) (st : main_state) : Prop :=
  button_pressed env BUTTON_A_PIN = false /\
  button_pressed env BUTTON_B_PIN = true /\
  debounce_elapsed (last_change st) (time_at_check env) = true.

(** Concrete pin readings used in the examples: both released, A only,
    B only, both pressed. *)
Definition pins_idle : Z -> bool := fun _ => true.
Definition pins_a : Z -> bool := fun pin => negb (pin =? BUTTON_A_PIN).
Definition pins_b : Z -> bool := fun pin => negb (pin =? BUTTON_B_PIN).
Definition pins_ab : Z -> bool :=
  fun pin => negb ((pin =? BUTTON_A_PIN) || (pin =? BUTTON_B_PIN)).

(** The calls by which an iteration acts on a press: the render of the new
    page or a boundary beep.  The idle sleep is not one of them. *)
Definition is_nav_action (c : call) : bool :=
  match c with
  | Call_sleep_ms _ => false
  | Call_beep_first_page | Call_beep_last_page | Call_render_page _ => true
  end.

Definition nav_actions (calls : list call) : nat :=
  List.length (filter is_nav_action calls).

Definition is_beep (c : call) : bool :=
  match c with
  | Call_beep_first_page | Call_beep_last_page => true
  | Call_render_page _ | Call_sleep_ms _ => false
  end.

(** What a call does to the peripherals. *)
Definition run_call (c : call) : option (list hw_event) :=
  match c with
  | Call_beep_first_page => beep_first_page
  | Call_beep_last_page => beep_last_page
  | Call_render_page page_index => render_page page_index
  | Call_sleep_ms ms => Some [Sleep_ms ms]
  end.

Fixpoint run_calls (calls : list call) : option (list hw_event) :=
  match calls with
  | [] => Some []
  | c :: calls' =>
      evs <- run_call c ;;
      evs' <- run_calls calls' ;;
      Some (evs ++ evs')
  end.

(** A render is asked for a page of the catalog. *)
Definition call_in_catalog (c : call) : Prop :=
  match c with
  | Call_render_page page_index => 0 <= page_index < NUM_PAGES
  | Call_beep_first_page | Call_beep_last_page | Call_sleep_ms _ => True
  end.

(** The clock reading of an iteration falls in the debounce window opened
    at [mark] by a press that was tested at [check]. *)
Definition in_window (check mark : Z) (env : tick_env) : Prop :=
  mark <= time_at_check env < check + DEBOUNCE_MS * 1000.

(** The invariant of the loop. *)
Definition page_in_range (st : main_state) : Prop :=
  0 <= current_page st < NUM_PAGES.

(* ====================================================================== *)
(** * 8. Runs of the loop and what they leave behind                       *)
(* ====================================================================== *)

(** Both buttons released. *)
Definition released (env : tick_env) : Prop :=
  button_pressed env BUTTON_A_PIN = false /\
  button_pressed env BUTTON_B_PIN = false.

(** The clock never goes back: every reading is at least the one before,
    [t] being the last reading made before [envs]. *)
Fixpoint clock_monotone (t : Z) (envs : list tick_env) : Prop :=
  match envs with
  | [] => True
  | env :: envs' =>
      t <= time_at_check env /\
      time_at_check env <= time_at_mark env /\
      clock_monotone (time_at_mark env) envs'
  end.

(** Successive presses of Next, each passing the debounce test against
    the [last_change] left by the one before. *)
Fixpoint presses_next (last : Z) (envs : list tick_env) : Prop :=
  match envs with
  | [] => True
  | env :: envs' =>
      button_pressed env BUTTON_A_PIN = true /\
      debounce_elapsed last (time_at_check env) = true /\
      presses_next (time_at_mark env) envs'
  end.

(** The same for Previous, button A being released. *)
Fixpoint presses_previous (last : Z) (envs : list tick_env) : Prop :=
  match envs with
  | [] => True
  | env :: envs' =>
      button_pressed env BUTTON_A_PIN = false /\
      button_pressed env BUTTON_B_PIN = true /\
      debounce_elapsed last (time_at_check env) = true /\
      presses_previous (time_at_mark env) envs'
  end.

(** The page on the display after a sequence of calls: the argument of
    the last [render_page], or [shown] if there is none. *)
Definition shown_page (shown : option Z) (calls : list call) : option Z :=
  fold_left (fun acc c => match c with
                          | Call_render_page i => Some i
                          | _ => acc
                          end) calls shown.

(** The level of the buzzer output after a sequence of events: the
    argument of the last [pwm_set_gpio_level(BUZZER_PIN, _)], or [level]
    if there is none. *)
Definition buzzer_level (level : option Z) (evs : list hw_event)
  : option Z :=
  fold_left (fun acc ev => match ev with
                           | Pwm_set_gpio_level pin l =>
                               if pin =? BUZZER_PIN then Some l else acc
                           | _ => acc
                           end) evs level.

Definition beeps (calls : list call) : nat :=
  List.length (filter is_beep calls).

(** Presses of Next spaced by 200 ms, starting 200 ms after [t]. *)
Fixpoint next_every_200ms (t : Z) (n : nat) : list tick_env :=
  match n with
  | O => []
  | S n' => mk_env pins_a (t + 200000) (t + 200000)
            :: next_every_200ms (t + 200000) n'
  end.

(** A call of [ssd1306_draw_string] made for the body of a page: at the
    left margin, on a row that ends above the footer row. *)
Definition above_footer (ev : hw_event) : bool :=
  match ev with
  | Ssd1306_draw_string x y _ => (x =? 5) && (0 <=? y) && (y + LINE_H <=? 56)
  | _ => false
  end.

(** The [k]-th line below [y]. *)
Definition row (y : Z) (k : nat) : Z := y + LINE_H * Z.of_nat k.

(** A call drawing a non-empty string of at most [MAX_LINE] characters at
    column [x], on one of the rows [y], [y + LINE_H], ...,
    [y + n * LINE_H]. *)
Definition draws_on_rows (x y : Z) (n : nat) (ev : hw_event) : Prop :=
  exists (k : nat) (s : cstring),
    ev = Ssd1306_draw_string x (row y k) s /\
    (k <= n)%nat /\ s <> [] /\ (List.length s <= MAX_LINE)%nat.

(** The rows of successive calls go strictly down the screen. *)
Fixpoint rows_increase (y : Z) (evs : list hw_event) : Prop :=
  match evs with
  | [] => True
  | Ssd1306_draw_string _ y' _ :: evs' => y <= y' /\ rows_increase (y' + 1) evs'
  | _ :: _ => False
  end.

(** The values a C [float] can hold: the canonical binary32 numbers. *)
Definition f32_valid (f : float32) : bool := valid_binary prec32 emax32 f.

Definition f32_is_nan (f : float32) : bool :=
  match f with
  | S754_nan => true
  | _ => false
  end.

(* ====================================================================== *)
(** * Properties of the polling loop                                       *)
(* ====================================================================== *)

Lemma NUM_PAGES_eq : NUM_PAGES = 4.
Proof. reflexivity. Qed.

Lemma int_wrap_small z : INT_MIN <= z <= INT_MAX -> int_wrap z = z.
Proof.
  unfold INT_MIN, INT_MAX, int_wrap. intros H.
  rewrite Z.mod_small; lia.
Qed.

Example loop_next_from_0 :
  loop_body (mk_env pins_a 200000 200010) (mk_state 0 0)
  = (mk_state 1 200010, [Call_render_page 1; Call_sleep_ms 10]).
Proof. reflexivity. Qed.

Example loop_next_from_last :
  loop_body (mk_env pins_a 200000 290010) (mk_state 3 0)
  = (mk_state 3 290010, [Call_beep_last_page; Call_sleep_ms 10]).
Proof. reflexivity. Qed.

Example loop_prev_from_0 :
  loop_body (mk_env pins_b 200000 290010) (mk_state 0 0)
  = (mk_state 0 290010, [Call_beep_first_page; Call_sleep_ms 10]).
Proof. reflexivity. Qed.

Example loop_bounce :
  loop_body (mk_env pins_a 180999 180999) (mk_state 0 0)
  = (mk_state 0 0, [Call_sleep_ms 10]).
Proof. reflexivity. Qed.

(** ** Unfolding the loop body, branch by branch *)

Lemma loop_body_next_advance env st :
  qualifying_next env st ->
  current_page st < NUM_PAGES - 1 ->
  loop_body env st
  = (mk_state (int_wrap (current_page st + 1)) (time_at_mark env),
     [Call_render_page (int_wrap (current_page st + 1)); Call_sleep_ms 10]).
Proof.
  intros [Ha Hd] Hlt. unfold loop_body. rewrite Ha, Hd.
  apply Z.ltb_lt in Hlt. rewrite Hlt. reflexivity.
Qed.

Lemma loop_body_next_boundary env st :
  qualifying_next env st ->
  NUM_PAGES - 1 <= current_page st ->
  loop_body env st
  = (mk_state (current_page st) (time_at_mark env),
     [Call_beep_last_page; Call_sleep_ms 10]).
Proof.
  intros [Ha Hd] Hge. unfold loop_body. rewrite Ha, Hd.
  apply Z.ltb_ge in Hge. rewrite Hge. reflexivity.
Qed.

Lemma loop_body_previous_retreat env st :
  qualifying_previous env st ->
  0 < current_page st ->
  loop_body env st
  = (mk_state (int_wrap (current_page st - 1)) (time_at_mark env),
     [Call_render_page (int_wrap (current_page st - 1)); Call_sleep_ms 10]).
Proof.
  intros (Ha & Hb & Hd) Hlt. unfold loop_body. rewrite Ha, Hb, Hd.
  apply Z.ltb_lt in Hlt. rewrite Hlt. reflexivity.
Qed.

Lemma loop_body_previous_boundary env st :
  qualifying_previous env st ->
  current_page st <= 0 ->
  loop_body env st
  = (mk_state (current_page st) (time_at_mark env),
     [Call_beep_first_page; Call_sleep_ms 10]).
Proof.
  intros (Ha & Hb & Hd) Hle. unfold loop_body. rewrite Ha, Hb, Hd.
  apply Z.ltb_ge in Hle. rewrite Hle. reflexivity.
Qed.

(** Whatever the pins say, nothing happens while the debounce window is
    open. *)
Lemma loop_body_bouncing env st :
  debounce_elapsed (last_change st) (time_at_check env) = false ->
  loop_body env st = (st, [Call_sleep_ms 10]).
Proof.
  intros Hd. unfold loop_body. rewrite Hd.
  destruct (button_pressed env BUTTON_A_PIN),
           (button_pressed env BUTTON_B_PIN); reflexivity.
Qed.

Lemma loop_body_released env st :
  button_pressed env BUTTON_A_PIN = false ->
  button_pressed env BUTTON_B_PIN = false ->
  loop_body env st = (st, [Call_sleep_ms 10]).
Proof.
  intros Ha Hb. unfold loop_body. rewrite Ha, Hb. reflexivity.
Qed.

(** Every iteration takes one of the branches above. *)
Lemma loop_body_cases env st :
  (qualifying_next env st /\ current_page st < NUM_PAGES - 1) \/
  (qualifying_next env st /\ NUM_PAGES - 1 <= current_page st) \/
  (qualifying_previous env st /\ 0 < current_page st) \/
  (qualifying_previous env st /\ current_page st <= 0) \/
  loop_body env st = (st, [Call_sleep_ms 10]).
Proof.
  unfold qualifying_next, qualifying_previous.
  destruct (debounce_elapsed (last_change st) (time_at_check env)) eqn:Hd;
    [ | do 4 right; now apply loop_body_bouncing ].
  destruct (button_pressed env BUTTON_A_PIN) eqn:Ha.
  - destruct (Z_lt_le_dec (current_page st) (NUM_PAGES - 1)); auto 10.
  - destruct (button_pressed env BUTTON_B_PIN) eqn:Hb.
    + destruct (Z_lt_le_dec 0 (current_page st)); auto 10.
    + do 4 right. now apply loop_body_released.
Qed.

(** Case analysis on an iteration: one goal per branch, with the loop
    body replaced by what the branch computes. *)
Ltac loop_cases env st Hq Hc :=
  let Hidle := fresh "Hidle" in
  destruct (loop_body_cases env st)
    as [[Hq Hc] | [[Hq Hc] | [[Hq Hc] | [[Hq Hc] | Hidle]]]];
  [ rewrite (loop_body_next_advance _ _ Hq Hc) in *
  | rewrite (loop_body_next_boundary _ _ Hq Hc) in *
  | rewrite (loop_body_previous_retreat _ _ Hq Hc) in *
  | rewrite (loop_body_previous_boundary _ _ Hq Hc) in *
  | rewrite Hidle in * ];
  cbn [fst snd current_page last_change] in *.

(** ** The page index stays inside the catalog *)

Lemma loop_body_in_range env st :
  page_in_range st -> page_in_range (fst (loop_body env st)).
Proof.
  unfold page_in_range. intros Hr.
  loop_cases env st Hq Hc; rewrite NUM_PAGES_eq in *;
    rewrite ?int_wrap_small by (unfold INT_MIN, INT_MAX; lia); lia.
Qed.

Lemma reachable_in_range st : reachable st -> page_in_range st.
Proof.
  induction 1 as [t0 | env st Hreach IH].
  - unfold page_in_range. rewrite NUM_PAGES_eq. cbn. lia.
  - now apply loop_body_in_range.
Qed.

Lemma main_loop_reachable envs :
  forall st, reachable st -> reachable (fst (main_loop envs st)).
Proof.
  induction envs as [| env envs IH]; intros st Hr; cbn [main_loop].
  - exact Hr.
  - pose proof (reachable_step env st Hr) as Hr1.
    destruct (loop_body env st) as [st1 calls1]. cbn [fst] in Hr1.
    specialize (IH st1 Hr1).
    destruct (main_loop envs st1) as [st2 calls2]. exact IH.
Qed.

Lemma main_reachable t0 envs : reachable (fst (main t0 envs)).
Proof.
  unfold main.
  pose proof (main_loop_reachable envs _ (reachable_init t0)) as H.
  cbn [main_init fst] in *.
  destruct (main_loop envs (mk_state 0 t0)) as [st calls]. exact H.
Qed.

(** C1.  Starting from [current_page = 0], after any finite sequence of
    loop iterations, with arbitrary pin levels and clock readings, the
    page index satisfies [0 <= current_page < NUM_PAGES]. *)
Theorem current_page_always_in_range :
  forall (t0 : Z) (envs : list tick_env),
    0 <= current_page (fst (main t0 envs)) < NUM_PAGES.
Proof.
  intros t0 envs. apply (reachable_in_range _ (main_reachable t0 envs)).
Qed.

(** C2.  On the last page a qualifying press of Next plays the last-page
    tone and changes neither the page nor the display; on the first page
    a qualifying press of Previous plays the first-page tone and changes
    neither the page nor the display. *)
Theorem boundary_press_beeps_and_stays :
  forall (env : tick_env) (st : main_state),
    (current_page st = NUM_PAGES - 1 -> qualifying_next env st ->
     loop_body env st
     = (mk_state (current_page st) (time_at_mark env),
        [Call_beep_last_page; Call_sleep_ms 10])) /\
    (current_page st = 0 -> qualifying_previous env st ->
     loop_body env st
     = (mk_state (current_page st) (time_at_mark env),
        [Call_beep_first_page; Call_sleep_ms 10])).
Proof.
  intros env st. split; intros Hp Hq.
  - apply loop_body_next_boundary; [exact Hq | lia].
  - apply loop_body_previous_boundary; [exact Hq | lia].
Qed.

Lemma boundary_press_beeps_and_stays_witness :
  loop_body (mk_env pins_a 200000 290010) (mk_state 3 0)
  = (mk_state 3 290010, [Call_beep_last_page; Call_sleep_ms 10]) /\
  loop_body (mk_env pins_b 200000 290010) (mk_state 0 0)
  = (mk_state 0 290010, [Call_beep_first_page; Call_sleep_ms 10]).
Proof.
  split.
  - apply (proj1 (boundary_press_beeps_and_stays
                    (mk_env pins_a 200000 290010) (mk_state 3 0))).
    + reflexivity.
    + split; reflexivity.
  - apply (proj2 (boundary_press_beeps_and_stays
                    (mk_env pins_b 200000 290010) (mk_state 0 0))).
    + reflexivity.
    + repeat split; reflexivity.
Defined.

(** ** Beeps and page changes exclude each other *)

Lemma loop_body_change_no_beep env st :
  current_page (fst (loop_body env st)) <> current_page st ->
  snd (loop_body env st)
  = [Call_render_page (current_page (fst (loop_body env st)));
     Call_sleep_ms 10].
Proof.
  intros Hne.
  loop_cases env st Hq Hc; reflexivity || now elim Hne.
Qed.

Lemma loop_body_last_beep_origin env st :
  page_in_range st ->
  In Call_beep_last_page (snd (loop_body env st)) ->
  qualifying_next env st /\ current_page st = NUM_PAGES - 1 /\
  fst (loop_body env st) = mk_state (current_page st) (time_at_mark env).
Proof.
  unfold page_in_range. intros Hr Hin.
  loop_cases env st Hq Hc;
    try (cbn in Hin; intuition discriminate).
  repeat split; try apply Hq. lia.
Qed.

(** C3.  In a reachable state, an iteration that increments
    [current_page] (in particular one that arrives at the last page)
    only renders the new page: it plays no boundary tone.  The last-page
    tone is played only by a qualifying press of Next made while
    [current_page] is already [NUM_PAGES - 1], and that iteration leaves
    the page where it is. *)
Theorem last_page_tone_only_on_repeated_press :
  forall (env : tick_env) (st : main_state),
    reachable st ->
    (current_page (fst (loop_body env st)) = current_page st + 1 ->
     snd (loop_body env st)
     = [Call_render_page (current_page st + 1); Call_sleep_ms 10] /\
     existsb is_beep (snd (loop_body env st)) = false) /\
    (In Call_beep_last_page (snd (loop_body env st)) ->
     qualifying_next env st /\
     current_page st = NUM_PAGES - 1 /\
     current_page (fst (loop_body env st)) = current_page st).
Proof.
  intros env st Hreach. apply reachable_in_range in Hreach. split.
  - intros Hinc.
    assert (Hne : current_page (fst (loop_body env st)) <> current_page st)
      by lia.
    rewrite (loop_body_change_no_beep env st Hne), Hinc.
    split; reflexivity.
  - intros Hin.
    destruct (loop_body_last_beep_origin env st Hreach Hin) as (Hq & Hp & Hs).
    rewrite Hs. auto.
Qed.

Lemma last_page_tone_only_on_repeated_press_witness :
  reachable (mk_state 2 400010) /\
  snd (loop_body (mk_env pins_a 600000 600010) (mk_state 2 400010))
  = [Call_render_page 3; Call_sleep_ms 10] /\
  existsb is_beep
    (snd (loop_body (mk_env pins_a 600000 600010) (mk_state 2 400010)))
  = false.
Proof.
  assert (H2 : reachable (mk_state 2 400010)).
  { exact (reachable_step (mk_env pins_a 400000 400010) _
             (reachable_step (mk_env pins_a 200000 200010) _
                (reachable_init 7))). }
  split.
  - exact H2.
  - exact (proj1 (last_page_tone_only_on_repeated_press
                    (mk_env pins_a 600000 600010) (mk_state 2 400010) H2)
             eq_refl).
Defined.

(** ** Debounce *)

Lemma absolute_time_diff_us_small from to :
  0 <= to - from < 2 ^ 63 -> absolute_time_diff_us from to = to - from.
Proof.
  intros H. unfold absolute_time_diff_us, uint64_wrap, int64_wrap.
  rewrite (Z.mod_small (to - from)) by lia.
  rewrite Z.mod_small; lia.
Qed.

Lemma debounce_window_open last now :
  0 <= now - last < 180 * 1000 -> debounce_elapsed last now = false.
Proof.
  intros H. unfold debounce_elapsed, DEBOUNCE_MS.
  rewrite absolute_time_diff_us_small by lia.
  apply Z.ltb_ge.
  assert ((now - last) ÷ 1000 < 180); [ | lia ].
  apply Z.quot_lt_upper_bound; lia.
Qed.

Lemma loop_body_qualifying env st :
  qualifying_next env st \/ qualifying_previous env st ->
  last_change (fst (loop_body env st)) = time_at_mark env /\
  nav_actions (snd (loop_body env st)) = 1%nat.
Proof.
  intros Hq.
  destruct Hq as [Hq | Hq].
  - destruct (Z_lt_le_dec (current_page st) (NUM_PAGES - 1)) as [Hc | Hc].
    + rewrite (loop_body_next_advance _ _ Hq Hc). split; reflexivity.
    + rewrite (loop_body_next_boundary _ _ Hq Hc). split; reflexivity.
  - destruct (Z_lt_le_dec 0 (current_page st)) as [Hc | Hc].
    + rewrite (loop_body_previous_retreat _ _ Hq Hc). split; reflexivity.
    + rewrite (loop_body_previous_boundary _ _ Hq Hc). split; reflexivity.
Qed.

(** While the clock stays in the debounce window, the loop idles. *)
Lemma main_loop_in_window (check : Z) (envs : list tick_env) :
  forall st : main_state,
    check <= last_change st ->
    Forall (in_window check (last_change st)) envs ->
    fst (main_loop envs st) = st /\
    nav_actions (snd (main_loop envs st)) = 0%nat.
Proof.
  induction envs as [| env envs IH]; intros st Hle Hwin; cbn [main_loop].
  - split; reflexivity.
  - inversion Hwin as [| env' envs' Henv Henvs]; subst.
    rewrite loop_body_bouncing.
    2:{ apply debounce_window_open. unfold in_window, DEBOUNCE_MS in Henv.
        lia. }
    destruct (IH st Hle Henvs) as [Hst Hact].
    destruct (main_loop envs st) as [st2 calls2]. cbn [fst snd] in *.
    split; [exact Hst |]. exact Hact.
Qed.

(** C4.  Take a qualifying press of a button, handled by one iteration,
    and a later iteration that sees the same button pressed less than
    180 ms after it (clock readings in microseconds, the clock being
    monotonic), with any number of iterations in between.  The first
    iteration performs exactly one action (a page render or a boundary
    beep) and restarts the debounce clock, whether or not the page
    changed; the iterations that follow, the second press included,
    perform none and leave the state untouched. *)
Theorem debounce_one_action_per_window :
  forall (st : main_state) (env1 : tick_env) (between : list tick_env)
         (env2 : tick_env),
    (qualifying_next env1 st /\
     button_pressed env2 BUTTON_A_PIN = true)
    \/
    (qualifying_previous env1 st /\
     button_pressed env2 BUTTON_A_PIN = false /\
     button_pressed env2 BUTTON_B_PIN = true) ->
    time_at_check env1 <= time_at_mark env1 ->
    Forall (in_window (time_at_check env1) (time_at_mark env1))
      (between ++ [env2]) ->
    let st1 := fst (loop_body env1 st) in
    nav_actions (snd (loop_body env1 st)) = 1%nat /\
    last_change st1 = time_at_mark env1 /\
    fst (main_loop (between ++ [env2]) st1) = st1 /\
    nav_actions (snd (main_loop (between ++ [env2]) st1)) = 0%nat /\
    loop_body env2 st1 = (st1, [Call_sleep_ms 10]).
Proof.
  intros st env1 between env2 Hpress Hmono Hwin st1.
  assert (Hq : qualifying_next env1 st \/ qualifying_previous env1 st)
    by tauto.
  destruct (loop_body_qualifying env1 st Hq) as [Hlast Hone].
  fold st1 in Hlast. rewrite <- Hlast in Hwin, Hmono.
  destruct (main_loop_in_window _ _ st1 Hmono Hwin) as [Hst Hact].
  repeat split; try assumption.
  apply loop_body_bouncing, debounce_window_open.
  apply Forall_app in Hwin. destruct Hwin as [_ Hwin2].
  inversion Hwin2 as [| e l Henv _]; subst.
  unfold in_window, DEBOUNCE_MS in Henv. lia.
Qed.

Lemma debounce_one_action_per_window_witness :
  loop_body (mk_env pins_a 379999 379999)
    (fst (loop_body (mk_env pins_a 200000 290010) (mk_state 3 0)))
  = (mk_state 3 290010, [Call_sleep_ms 10]).
Proof.
  refine (proj2 (proj2 (proj2 (proj2
    (debounce_one_action_per_window (mk_state 3 0)
       (mk_env pins_a 200000 290010)
       [mk_env pins_idle 300020 300020; mk_env pins_a 310030 310030]
       (mk_env pins_a 379999 379999)
       _ _ _))))).
  - left. repeat split; reflexivity.
  - cbn. lia.
  - repeat constructor; cbn; lia.
Defined.

(** ** Priority of button A *)

(** C5.  With the same clock readings, an iteration that reads both
    buttons pressed does exactly what an iteration that reads only
    button A pressed does: same calls, same new state. *)
Theorem both_buttons_behave_as_next :
  forall (st : main_state) (env_both env_a : tick_env),
    button_pressed env_both BUTTON_A_PIN = true ->
    button_pressed env_both BUTTON_B_PIN = true ->
    button_pressed env_a BUTTON_A_PIN = true ->
    button_pressed env_a BUTTON_B_PIN = false ->
    time_at_check env_both = time_at_check env_a ->
    time_at_mark env_both = time_at_mark env_a ->
    loop_body env_both st = loop_body env_a st.
Proof.
  intros st env_both env_a Ha1 _ Ha2 _ Hc Hm.
  unfold loop_body. rewrite Ha1, Ha2, Hc, Hm. reflexivity.
Qed.

Lemma both_buttons_behave_as_next_witness :
  loop_body (mk_env pins_ab 200000 200010) (mk_state 1 0)
  = loop_body (mk_env pins_a 200000 200010) (mk_state 1 0).
Proof.
  apply both_buttons_behave_as_next; reflexivity.
Defined.

(** ** Every call of the loop completes *)

Lemma loop_body_calls_in_catalog env st :
  page_in_range st -> Forall call_in_catalog (snd (loop_body env st)).
Proof.
  intros Hr. pose proof (loop_body_in_range env st Hr) as Hr1.
  loop_cases env st Hq Hc;
    repeat first [exact Hr1 | exact I | constructor].
Qed.

Lemma main_loop_calls_in_catalog envs :
  forall st, page_in_range st ->
             Forall call_in_catalog (snd (main_loop envs st)).
Proof.
  induction envs as [| env envs IH]; intros st Hr; cbn [main_loop].
  - constructor.
  - pose proof (loop_body_calls_in_catalog env st Hr) as H1.
    pose proof (loop_body_in_range env st Hr) as Hr1.
    destruct (loop_body env st) as [st1 calls1]. cbn [fst snd] in *.
    specialize (IH st1 Hr1).
    destruct (main_loop envs st1) as [st2 calls2]. cbn [snd] in *.
    apply Forall_app. split; assumption.
Qed.

(* ====================================================================== *)
(** * Properties of the text layout and of the page renderer               *)
(* ====================================================================== *)

Example render_page_2 :
  render_page 2
  = Some [ Memset_ssd;
           Ssd1306_draw_string 5 0 (lit "Pagina 3");
           Ssd1306_draw_string 5 16 (lit "O ceu e limite.");
           Ssd1306_draw_string 0 56 (lit "A=Prox B=Voltar  3/4");
           Render_on_display ].
Proof. vm_compute. reflexivity. Qed.

Example println_skips_empty_lines :
  oled_println_buf 5 0 (lit "ab" ++ [NL; NL] ++ lit "cd" ++ [NL])
  = Some [ Ssd1306_draw_string 5 0 (lit "ab");
           Ssd1306_draw_string 5 16 (lit "cd") ].
Proof. vm_compute. reflexivity. Qed.

Example println_matches_layout_page_1 :
  match nth_error PAGES 1 with
  | Some text =>
      oled_println_buf 5 0 text
      = Some (draw_entries 5 (layout 0 (split_lines (c_str text))))
  | None => False
  end.
Proof. vm_compute. reflexivity. Qed.

Example println_long_line :
  oled_println_buf 0 0 (repeat "a"%char 300)
  = Some [Ssd1306_draw_string 0 0 (repeat "a"%char 127)].
Proof. vm_compute. reflexivity. Qed.

(** ** Character arrays *)

Lemma strz_terminated (l tail : list ascii) :
  Forall (fun c => is_nul c = false) l ->
  strz (l ++ NUL :: tail) = Some l.
Proof.
  induction 1 as [| c l Hc Hl IH]; cbn [app strz].
  - reflexivity.
  - rewrite Hc, IH. reflexivity.
Qed.

Lemma Forall_plain_not_nul (l : list ascii) :
  Forall plain l -> Forall (fun c => is_nul c = false) l.
Proof. apply Forall_impl. intros c [H _]. exact H. Qed.

Lemma Forall_prefix {A} (P : A -> Prop) (k : nat) (l : list A) :
  Forall P l -> Forall P (firstn k l).
Proof.
  intros H. rewrite <- (firstn_skipn k l) in H.
  now apply Forall_app in H.
Qed.

Lemma linebuf_init_length : List.length linebuf_init = 128%nat.
Proof. reflexivity. Qed.

(** The copy block draws the first [MAX_LINE] characters of the current
    line and leaves [linebuf] with its 128 cells. *)
Lemma copy_and_draw_line x y (cur more linebuf : list ascii) :
  Forall plain cur ->
  List.length linebuf = 128%nat ->
  0 < Z.of_nat (List.length cur) <= INT_MAX ->
  exists linebuf',
    copy_and_draw x y (cur ++ more) (Z.of_nat (List.length cur)) linebuf
    = Some (Ssd1306_draw_string x y (firstn MAX_LINE cur), linebuf')
    /\ List.length linebuf' = 128%nat.
Proof.
  intros Hplain Hbuf Hlen. unfold copy_and_draw, LINEBUF_SIZE, MAX_LINE.
  set (n := List.length cur) in *.
  set (len := if 128 <=? Z.of_nat n then int_wrap (128 - 1) else Z.of_nat n).
  assert (Hk : exists k : nat,
             len = Z.of_nat k /\ k = Nat.min n 127 /\ (k < 128)%nat).
  { unfold len. destruct (Z.leb_spec 128 (Z.of_nat n)).
    - exists 127%nat. rewrite int_wrap_small by (unfold INT_MIN, INT_MAX; lia).
      repeat split; lia.
    - exists n. repeat split; lia. }
  destruct Hk as (k & -> & Hk & Hk128).
  assert (Hkn : (k <= n)%nat) by lia.
  unfold uint32_wrap. rewrite Z.mod_small by lia. rewrite Nat2Z.id.
  unfold memcpy. rewrite Hbuf, length_app. fold n.
  replace ((k <=? 128)%nat && (k <=? n + List.length more)%nat) with true
    by (symmetry; apply andb_true_intro; split; apply Nat.leb_le; lia).
  rewrite firstn_app. fold n. replace (k - n)%nat with 0%nat by lia.
  rewrite firstn_O, app_nil_r.
  set (head := firstn k cur).
  assert (Hhead : List.length head = k)
    by (unfold head; rewrite length_firstn; fold n; lia).
  cbn [bind]. unfold store. rewrite length_app, length_skipn, Hbuf, Hhead.
  replace ((0 <=? Z.of_nat k) && (Z.of_nat k <? Z.of_nat (k + (128 - k))))
    with true
    by (symmetry; apply andb_true_intro; split;
        [apply Z.leb_le | apply Z.ltb_lt]; lia).
  rewrite Nat2Z.id. cbn [bind].
  rewrite firstn_app, Hhead, Nat.sub_diag, firstn_O, app_nil_r.
  rewrite firstn_all2 by lia.
  rewrite strz_terminated.
  2:{ apply Forall_plain_not_nul. unfold head. now apply Forall_prefix. }
  cbn [bind].
  exists (head ++ NUL :: skipn (S k) (head ++ skipn k linebuf)). split.
  - unfold head. f_equal. f_equal.
    destruct (Nat.le_gt_cases n 127).
    + rewrite !firstn_all2 by (fold n; lia). reflexivity.
    + replace k with 127%nat by lia. reflexivity.
  - rewrite length_app. cbn [List.length].
    rewrite length_skipn, length_app, length_skipn, Hbuf, Hhead. lia.
Qed.

(** ** Splitting into lines *)

Lemma split_lines_not_nil (s : cstring) : split_lines s <> [].
Proof.
  destruct s as [| c s]; cbn [split_lines]; [discriminate |].
  destruct (is_nl c); [discriminate |].
  destruct (split_lines s); discriminate.
Qed.

Lemma split_lines_cons_plain (c : ascii) (s : cstring) :
  is_nl c = false ->
  exists l ls, split_lines s = l :: ls /\ split_lines (c :: s) = (c :: l) :: ls.
Proof.
  intros Hc. cbn [split_lines]. rewrite Hc.
  destruct (split_lines s) as [| l ls] eqn:E.
  - now elim (split_lines_not_nil s).
  - exists l, ls. split; reflexivity.
Qed.

Lemma split_lines_app_plain (cur s : cstring) :
  Forall plain cur ->
  exists l ls,
    split_lines s = l :: ls /\ split_lines (cur ++ s) = (cur ++ l) :: ls.
Proof.
  induction 1 as [| c cur [_ Hc] Hcur IH]; cbn [app].
  - destruct (split_lines s) as [| l ls] eqn:E.
    + now elim (split_lines_not_nil s).
    + exists l, ls. split; reflexivity.
  - destruct IH as (l & ls & Hs & Happ).
    destruct (split_lines_cons_plain c (cur ++ s) Hc) as (l' & ls' & H1 & H2).
    rewrite Happ in H1. injection H1 as <- <-.
    exists l, ls. split; assumption.
Qed.

Lemma split_lines_plain (cur : cstring) :
  Forall plain cur -> split_lines cur = [cur].
Proof.
  intros H. destruct (split_lines_app_plain cur [] H) as (l & ls & H1 & H2).
  cbn in H1. injection H1 as <- <-. now rewrite !app_nil_r in H2.
Qed.

Lemma split_lines_app_nl (cur s : cstring) :
  Forall plain cur ->
  split_lines (cur ++ NL :: s) = cur :: split_lines s.
Proof.
  intros H.
  destruct (split_lines_app_plain cur (NL :: s) H) as (l & ls & H1 & H2).
  cbn in H1. injection H1 as <- <-. now rewrite app_nil_r in H2.
Qed.

Lemma split_lines_length (s : cstring) :
  List.length (split_lines s) = S (newline_count s).
Proof.
  unfold newline_count.
  induction s as [| c s IH]; cbn [split_lines filter]; [reflexivity |].
  destruct (is_nl c) eqn:Hc; cbn [List.length].
  - now rewrite IH.
  - destruct (split_lines s) as [| l ls]; [discriminate IH | exact IH].
Qed.

Lemma is_nl_true (c : ascii) : is_nl c = true -> c = NL.
Proof. apply Ascii.eqb_eq. Qed.

Lemma join_split_lines (s : cstring) : join_lines (split_lines s) = s.
Proof.
  induction s as [| c s IH]; cbn [split_lines]; [reflexivity |].
  destruct (is_nl c) eqn:Hc.
  - apply is_nl_true in Hc. subst c.
    destruct (split_lines s) as [| l ls] eqn:E.
    + now elim (split_lines_not_nil s).
    + cbn [join_lines app]. cbn [join_lines] in IH. now rewrite IH.
  - destruct (split_lines s) as [| l ls] eqn:E.
    + now elim (split_lines_not_nil s).
    + destruct ls; cbn [join_lines app] in *; now rewrite IH.
Qed.

Lemma split_lines_no_nl (s : cstring) :
  Forall (Forall (fun c => is_nl c = false)) (split_lines s).
Proof.
  induction s as [| c s IH]; cbn [split_lines].
  - repeat constructor.
  - destruct (is_nl c) eqn:Hc.
    + constructor; [constructor | exact IH].
    + destruct (split_lines s) as [| l ls].
      * repeat constructor. exact Hc.
      * inversion IH; subst. constructor; [constructor |]; assumption.
Qed.

(** ** The loop of [oled_println_buf] computes the layout *)

Lemma println_last_layout x (text pre cur rest : cstring) (y : Z)
    (linebuf : list ascii) :
  text = pre ++ cur ++ rest ->
  Forall plain cur ->
  List.length linebuf = 128%nat ->
  Z.of_nat (List.length text) <= INT_MAX ->
  println_last x text (List.length pre)
    (List.length pre + List.length cur) y linebuf
  = Some (draw_entries x (layout y [cur])).
Proof.
  intros Htext Hplain Hbuf Hsize. unfold println_last.
  cbn [layout draw_entries flat_map]. rewrite app_nil_r.
  destruct cur as [| c cur].
  - cbn [List.length]. rewrite Nat.add_0_r, Nat.ltb_irrefl. reflexivity.
  - replace (List.length pre <? List.length pre + List.length (c :: cur))%nat
      with true by (symmetry; apply Nat.ltb_lt; cbn [List.length]; lia).
    assert (Hcur : 0 < Z.of_nat (List.length (c :: cur)) <= INT_MAX).
    { subst text. rewrite !length_app in Hsize. cbn [List.length] in *. lia. }
    replace (Z.of_nat (List.length pre + List.length (c :: cur))
             - Z.of_nat (List.length pre))
      with (Z.of_nat (List.length (c :: cur))) by lia.
    rewrite int_wrap_small by (unfold INT_MIN; lia).
    rewrite Htext, skipn_app, skipn_all, Nat.sub_diag, skipn_O, app_nil_l.
    destruct (copy_and_draw_line x y (c :: cur) rest linebuf Hplain Hbuf Hcur)
      as (linebuf' & -> & _).
    reflexivity.
Qed.

Lemma println_loop_layout x (text : cstring) :
  Z.of_nat (List.length text) <= INT_MAX ->
  forall (rest pre cur : cstring) (y : Z) (linebuf : list ascii),
    text = pre ++ cur ++ rest ->
    Forall plain cur ->
    List.length linebuf = 128%nat ->
    println_loop x text rest (List.length pre)
      (List.length pre + List.length cur) y linebuf
    = Some (draw_entries x (layout y (split_lines (cur ++ c_str rest)))).
Proof.
  intros Hsize.
  induction rest as [| c rest IH]; intros pre cur y linebuf Htext Hplain Hbuf.
  - cbn [println_loop c_str]. rewrite app_nil_r, (split_lines_plain cur Hplain).
    now apply println_last_layout with (rest := []).
  - cbn [println_loop c_str].
    destruct (is_nul c) eqn:Hnul.
    + rewrite app_nil_r, (split_lines_plain cur Hplain).
      now apply println_last_layout with (rest := c :: rest).
    + destruct (is_nl c) eqn:Hnl.
      * apply is_nl_true in Hnl. subst c.
        rewrite (split_lines_app_nl cur (c_str rest) Hplain).
        cbn [layout draw_entries flat_map].
        replace (Z.of_nat (List.length pre + List.length cur)
                 - Z.of_nat (List.length pre))
          with (Z.of_nat (List.length cur)) by lia.
        assert (Hcur : Z.of_nat (List.length cur) <= INT_MAX).
        { subst text. rewrite !length_app in Hsize. lia. }
        rewrite int_wrap_small by (unfold INT_MIN; lia).
        assert (Hnext :
          forall linebuf', List.length linebuf' = 128%nat ->
            println_loop x text rest (S (List.length pre + List.length cur))
              (S (List.length pre + List.length cur))
              (int_wrap (y + LINE_H)) linebuf'
            = Some (draw_entries x
                      (layout (int_wrap (y + LINE_H))
                         (split_lines (c_str rest))))).
        { intros linebuf' Hbuf'.
          specialize (IH (pre ++ cur ++ [NL]) [] (int_wrap (y + LINE_H))
                        linebuf').
          rewrite !length_app in IH. cbn [List.length app] in IH.
          replace (List.length pre + (List.length cur + 1) + 0)%nat
            with (S (List.length pre + List.length cur)) in IH by lia.
          replace (List.length pre + (List.length cur + 1))%nat
            with (S (List.length pre + List.length cur)) in IH by lia.
          apply IH; [ | constructor | exact Hbuf'].
          rewrite Htext, <- !app_assoc. reflexivity. }
        destruct cur as [| c0 cur0] eqn:Ecur.
        -- cbn [List.length] in Hnext.
           cbn [List.length Z.of_nat Z.ltb Z.compare draw_entry fst app
                bind].
           rewrite (Hnext linebuf Hbuf). reflexivity.
        -- rewrite <- Ecur in *.
           assert (Hpos : 0 < Z.of_nat (List.length cur))
             by (rewrite Ecur; cbn [List.length]; lia).
           replace (0 <? Z.of_nat (List.length cur)) with true
             by (symmetry; now apply Z.ltb_lt).
           rewrite Htext, skipn_app, skipn_all, Nat.sub_diag, skipn_O.
           rewrite app_nil_l.
           destruct (copy_and_draw_line x y cur (NL :: rest) linebuf
                       Hplain Hbuf (conj Hpos Hcur))
             as (linebuf' & -> & Hbuf').
           cbn [bind]. rewrite <- Htext, (Hnext linebuf' Hbuf').
           unfold draw_entry. cbn [fst snd]. rewrite Ecur. reflexivity.
      * specialize (IH pre (cur ++ [c]) y linebuf).
        rewrite length_app in IH. cbn [List.length] in IH.
        replace (List.length pre + (List.length cur + 1))%nat
          with (S (List.length pre + List.length cur)) in IH by lia.
        rewrite <- !app_assoc in IH. cbn [app] in IH.
        apply IH; [exact Htext | | exact Hbuf].
        apply Forall_app. split; [exact Hplain |].
        repeat constructor; assumption.
Qed.

(** [oled_println_buf] draws, line by line, what the layout says. *)
Lemma oled_println_buf_layout x y (text : cstring) :
  Z.of_nat (List.length text) <= INT_MAX ->
  oled_println_buf x y text
  = Some (draw_entries x (layout y (split_lines (c_str text)))).
Proof.
  intros Hsize. unfold oled_println_buf.
  exact (println_loop_layout x text Hsize text [] [] y linebuf_init
           eq_refl (Forall_nil _) linebuf_init_length).
Qed.

Lemma draw_entries_length_ok x (entries : list (cstring * Z)) :
  Forall drawn_length_ok (draw_entries x entries).
Proof.
  unfold draw_entries. induction entries as [| [l y] entries IH].
  - constructor.
  - cbn [flat_map]. apply Forall_app. split; [ | exact IH].
    unfold draw_entry. cbn [fst snd]. destruct l as [| c l].
    + constructor.
    + constructor; [ | constructor]. unfold drawn_length_ok.
      rewrite length_firstn. apply Nat.le_min_l.
Qed.

(** C8.  Whatever the length of its lines, [oled_println_buf] completes
    without touching [linebuf] outside its 128 cells (the model returns
    [Some]); each non-empty line is drawn cut to its first 127 characters,
    the rest of the line being dropped; in particular a text made of one
    line, however long, yields one call drawing its first 127
    characters. *)
Theorem oversized_line_truncated :
  forall (x y : Z) (text : cstring),
    Z.of_nat (List.length text) <= INT_MAX ->
    oled_println_buf x y text
    = Some (draw_entries x (layout y (split_lines (c_str text)))) /\
    Forall drawn_length_ok
      (draw_entries x (layout y (split_lines (c_str text)))) /\
    (Forall plain text -> text <> [] ->
     oled_println_buf x y text
     = Some [Ssd1306_draw_string x y (firstn MAX_LINE text)]).
Proof.
  intros x y text Hsize.
  pose proof (oled_println_buf_layout x y text Hsize) as Hlay.
  split; [exact Hlay |]. split; [apply draw_entries_length_ok |].
  intros Hplain Hne. rewrite Hlay.
  assert (Hstr : c_str text = text).
  { clear - Hplain. induction Hplain as [| c l [Hc _] Hl IH]; cbn [c_str].
    - reflexivity.
    - now rewrite Hc, IH. }
  rewrite Hstr, (split_lines_plain text Hplain).
  destruct text as [| c text]; [now elim Hne | reflexivity].
Qed.

Lemma oversized_line_truncated_witness :
  oled_println_buf 0 0 text_long
  = Some [Ssd1306_draw_string 0 0 (repeat "a"%char 127)].
Proof.
  assert (Hsize : Z.of_nat (List.length text_long) <= INT_MAX)
    by (vm_compute; discriminate).
  assert (Hplain : Forall plain text_long).
  { unfold text_long. apply Forall_forall. intros c Hc.
    apply repeat_spec in Hc. subst c. split; reflexivity. }
  assert (Hne : text_long <> []) by discriminate.
  exact (proj2 (proj2 (oversized_line_truncated 0 0 text_long Hsize))
           Hplain Hne).
Defined.

(** ** Three line breaks *)

(** C7, as stated, fails: ["ab\n\ncd\n"] holds three line breaks, and
    [oled_println_buf] draws two lines for it, 16 pixels apart, not four
    lines 8 pixels apart. *)
Lemma three_breaks_two_lines_drawn :
  newline_count (c_str text_ab_cd) = 3%nat /\
  oled_println_buf 5 0 text_ab_cd
  = Some [ Ssd1306_draw_string 5 0 (lit "ab");
           Ssd1306_draw_string 5 16 (lit "cd") ] /\
  ~ (exists l0 l1 l2 l3 : cstring,
       oled_println_buf 5 0 text_ab_cd
       = Some [ Ssd1306_draw_string 5 0 l0;
                Ssd1306_draw_string 5 (0 + LINE_H) l1;
                Ssd1306_draw_string 5 (0 + 2 * LINE_H) l2;
                Ssd1306_draw_string 5 (0 + 3 * LINE_H) l3 ]).
Proof.
  split; [reflexivity |]. split; [vm_compute; reflexivity |].
  intros (l0 & l1 & l2 & l3 & H).
  assert (E : oled_println_buf 5 0 text_ab_cd
              = Some [ Ssd1306_draw_string 5 0 (lit "ab");
                       Ssd1306_draw_string 5 16 (lit "cd") ])
    by (vm_compute; reflexivity).
  rewrite E in H. discriminate H.
Qed.

Lemma layout_four (y : Z) (l0 l1 l2 l3 : cstring) :
  INT_MIN <= y -> y + 3 * LINE_H <= INT_MAX ->
  layout y [l0; l1; l2; l3]
  = [ (l0, y); (l1, y + LINE_H); (l2, y + 2 * LINE_H);
      (l3, y + 3 * LINE_H) ].
Proof.
  intros Hlo Hhi. cbn [layout]. unfold LINE_H in *.
  rewrite (int_wrap_small (y + 8)) by (unfold INT_MIN, INT_MAX in *; lia).
  rewrite (int_wrap_small (y + 8 + 8)) by (unfold INT_MIN, INT_MAX in *; lia).
  rewrite (int_wrap_small (y + 8 + 8 + 8))
    by (unfold INT_MIN, INT_MAX in *; lia).
  repeat (f_equal; try lia).
Qed.

(** C7, amended.  A content string with exactly three line breaks is laid
    out as exactly four line entries, the last one being what follows the
    third break (possibly empty); each entry lies exactly one [LINE_H]
    below the previous one; every non-empty entry is drawn at its offset,
    cut to 127 characters, and an empty entry is not drawn. *)
Theorem three_breaks_four_entries :
  forall (x y : Z) (text : cstring),
    Z.of_nat (List.length text) <= INT_MAX ->
    INT_MIN <= y -> y + 3 * LINE_H <= INT_MAX ->
    newline_count (c_str text) = 3%nat ->
    exists l0 l1 l2 l3 : cstring,
      c_str text = l0 ++ NL :: l1 ++ NL :: l2 ++ NL :: l3 /\
      Forall (Forall (fun c => is_nl c = false)) [l0; l1; l2; l3] /\
      layout y (split_lines (c_str text))
      = [ (l0, y); (l1, y + LINE_H); (l2, y + 2 * LINE_H);
          (l3, y + 3 * LINE_H) ] /\
      oled_println_buf x y text
      = Some (draw_entry x (l0, y) ++
              draw_entry x (l1, y + LINE_H) ++
              draw_entry x (l2, y + 2 * LINE_H) ++
              draw_entry x (l3, y + 3 * LINE_H)).
Proof.
  intros x y text Hsize Hlo Hhi Hcount.
  pose proof (split_lines_length (c_str text)) as Hlen.
  pose proof (join_split_lines (c_str text)) as Hjoin.
  pose proof (split_lines_no_nl (c_str text)) as Hnonl.
  rewrite Hcount in Hlen.
  destruct (split_lines (c_str text)) as [| l0 [| l1 [| l2 [| l3 [| l4 ls]]]]]
    eqn:Esplit; try discriminate Hlen.
  exists l0, l1, l2, l3.
  split; [symmetry; exact Hjoin |]. split; [exact Hnonl |].
  split; [now apply layout_four |].
  rewrite (oled_println_buf_layout x y text Hsize), Esplit.
  rewrite (layout_four y l0 l1 l2 l3 Hlo Hhi).
  cbn [draw_entries flat_map]. now rewrite app_nil_r.
Qed.

Lemma three_breaks_four_entries_witness :
  exists l0 l1 l2 l3 : cstring,
    c_str text_ab_cd = l0 ++ NL :: l1 ++ NL :: l2 ++ NL :: l3 /\
    oled_println_buf 5 0 text_ab_cd
    = Some (draw_entry 5 (l0, 0) ++
            draw_entry 5 (l1, 0 + LINE_H) ++
            draw_entry 5 (l2, 0 + 2 * LINE_H) ++
            draw_entry 5 (l3, 0 + 3 * LINE_H)).
Proof.
  assert (Hsize : Z.of_nat (List.length text_ab_cd) <= INT_MAX)
    by (vm_compute; discriminate).
  assert (Hlo : INT_MIN <= 0) by (vm_compute; discriminate).
  assert (Hhi : 0 + 3 * LINE_H <= INT_MAX) by (vm_compute; discriminate).
  destruct (three_breaks_four_entries 5 0 text_ab_cd Hsize Hlo Hhi eq_refl)
    as (l0 & l1 & l2 & l3 & Hstr & _ & _ & Hdraw).
  exists l0, l1, l2, l3. split; assumption.
Defined.

(** ** The footer *)

Lemma snprintf_footer_fits (a b : Z) :
  (List.length (fmt_d a) + List.length (fmt_d b) <= 13)%nat ->
  snprintf_footer FOOTER_SIZE a b
  = lit "A=Prox B=Voltar  " ++ fmt_d a ++ lit "/" ++ fmt_d b.
Proof.
  intros H. unfold snprintf_footer, FOOTER_SIZE.
  apply firstn_all2. rewrite !length_app.
  cbn [lit list_ascii_of_string List.length].
  lia.
Qed.

Lemma page_at_in_range (i : Z) :
  0 <= i < NUM_PAGES ->
  exists text, page_at i = Some text /\
               Z.of_nat (List.length text) <= INT_MAX.
Proof.
  rewrite NUM_PAGES_eq. intros H.
  assert (Hi : i = 0 \/ i = 1 \/ i = 2 \/ i = 3) by lia.
  destruct Hi as [-> | [-> | [-> | ->]]];
    (eexists; split; [reflexivity | vm_compute; discriminate]).
Qed.

(** C6.  Rendering a page [i] of the catalog ends by drawing, at column 0
    of row 56, the footer ["A=Prox B=Voltar  "], [i + 1] in decimal, ["/"]
    and [NUM_PAGES] in decimal, then flushes the buffer; the catalog has
    four pages and rendering index 2 draws exactly
    ["A=Prox B=Voltar  3/4"]. *)
Theorem render_page_footer :
  (forall i : Z,
     0 <= i < NUM_PAGES ->
     exists (text : cstring) (body : list hw_event),
       page_at i = Some text /\
       oled_println_buf 5 0 text = Some body /\
       render_page i
       = Some ([Memset_ssd] ++ body ++
               [ Ssd1306_draw_string 0 56
                   (lit "A=Prox B=Voltar  " ++ fmt_d (i + 1) ++
                    lit "/" ++ fmt_d NUM_PAGES);
                 Render_on_display ])) /\
  NUM_PAGES = 4 /\
  (exists body : list hw_event,
     render_page 2
     = Some ([Memset_ssd] ++ body ++
             [ Ssd1306_draw_string 0 56 (lit "A=Prox B=Voltar  3/4");
               Render_on_display ])).
Proof.
  split; [ | split; [reflexivity |]].
  - intros i Hi.
    destruct (page_at_in_range i Hi) as (text & Hpage & Hsize).
    pose proof (oled_println_buf_layout 5 0 text Hsize) as Hbody.
    exists text, (draw_entries 5 (layout 0 (split_lines (c_str text)))).
    split; [exact Hpage |]. split; [exact Hbody |].
    unfold render_page. rewrite Hpage. cbn [bind].
    rewrite Hbody. cbn [bind].
    rewrite NUM_PAGES_eq in Hi.
    rewrite int_wrap_small by (unfold INT_MIN, INT_MAX; lia).
    rewrite snprintf_footer_fits; [reflexivity |].
    assert (Hc : i = 0 \/ i = 1 \/ i = 2 \/ i = 3) by lia.
    destruct Hc as [-> | [-> | [-> | ->]]]; vm_compute; lia.
  - eexists [_; _]. vm_compute. reflexivity.
Qed.

Lemma render_page_footer_witness :
  exists (text : cstring) (body : list hw_event),
    page_at 2 = Some text /\
    oled_println_buf 5 0 text = Some body /\
    render_page 2
    = Some ([Memset_ssd] ++ body ++
            [ Ssd1306_draw_string 0 56
                (lit "A=Prox B=Voltar  " ++ fmt_d (2 + 1) ++
                 lit "/" ++ fmt_d NUM_PAGES);
              Render_on_display ]).
Proof.
  apply (proj1 render_page_footer 2). rewrite NUM_PAGES_eq. lia.
Defined.

(* ====================================================================== *)
(** * Properties of the tone generator                                     *)
(* ====================================================================== *)

Example f32_0_35_bits : f32_0_35 = S754_finite false 11744051 (-25).
Proof. vm_compute. reflexivity. Qed.

Example beep_last_page_trace :
  beep_last_page
  = Some [ Pwm_set_clkdiv f32_4; Pwm_set_wrap 26040;
           Pwm_set_gpio_level BUZZER_PIN 9114; Sleep_ms 90;
           Pwm_set_gpio_level BUZZER_PIN 0 ].
Proof. vm_compute. reflexivity. Qed.

Example beep_first_page_trace :
  beep_first_page
  = Some [ Pwm_set_clkdiv f32_4; Pwm_set_wrap 62499;
           Pwm_set_gpio_level BUZZER_PIN 21874; Sleep_ms 90;
           Pwm_set_gpio_level BUZZER_PIN 0 ].
Proof. vm_compute. reflexivity. Qed.

(** C9.  With a frequency of 0, [play_tone] only sleeps for [ms]
    milliseconds: it makes no PWM call (no divider, wrap or level is
    written) and returns. *)
Theorem play_tone_zero_frequency_is_rest :
  forall (ms : Z) (duty : float32),
    play_tone 0 ms duty = Some [Sleep_ms ms] /\
    existsb is_pwm_event [Sleep_ms ms] = false.
Proof.
  intros ms duty. split; reflexivity.
Qed.

(** ** Binary32 arithmetic on normal numbers *)

Lemma digits2_pos_bounds (p : positive) :
  2 ^ (Zpos (digits2_pos p) - 1) <= Zpos p < 2 ^ Zpos (digits2_pos p).
Proof.
  induction p as [p IH | p IH |]; cbn [digits2_pos].
  - rewrite Pos2Z.inj_succ. change (Zpos p~1) with (2 * Zpos p + 1).
    replace (Z.succ (Zpos (digits2_pos p)) - 1)
      with (Z.succ (Zpos (digits2_pos p) - 1)) by lia.
    rewrite !Z.pow_succ_r by lia. lia.
  - rewrite Pos2Z.inj_succ. change (Zpos p~0) with (2 * Zpos p).
    replace (Z.succ (Zpos (digits2_pos p)) - 1)
      with (Z.succ (Zpos (digits2_pos p) - 1)) by lia.
    rewrite !Z.pow_succ_r by lia. lia.
  - cbn. lia.
Qed.

Lemma digits2_pos_unique (p : positive) (k : Z) :
  2 ^ (k - 1) <= Zpos p < 2 ^ k -> Zpos (digits2_pos p) = k.
Proof.
  intros H. pose proof (digits2_pos_bounds p) as Hd.
  set (d := Zpos (digits2_pos p)) in *.
  assert (0 < k).
  { destruct (Z_lt_le_dec 0 k) as [|Hk]; [assumption |].
    destruct (Z.eq_dec k 0) as [-> | Hk0].
    - cbn in H. lia.
    - rewrite (Z.pow_neg_r 2 k) in H by lia. lia. }
  destruct (Z.lt_trichotomy d k) as [Hlt | [Heq | Hgt]]; [ | exact Heq | ].
  - assert (2 ^ d <= 2 ^ (k - 1)) by (apply Z.pow_le_mono_r; lia). lia.
  - assert (2 ^ k <= 2 ^ (d - 1)) by (apply Z.pow_le_mono_r; lia). lia.
Qed.

Lemma shr_1_halves (mrs : shr_record) :
  0 <= shr_m mrs -> shr_m (shr_1 mrs) = shr_m mrs / 2.
Proof.
  destruct mrs as [m r s]. cbn [shr_m]. intros Hm.
  destruct m as [| [p | p |] | p]; cbn [shr_1 shr_m]; try lia.
  - reflexivity.
  - apply Z.div_unique with (r := 1); [lia |].
    change (Zpos p~1) with (2 * Zpos p + 1). lia.
  - apply Z.div_unique with (r := 0); [lia |].
    change (Zpos p~0) with (2 * Zpos p). lia.
  - reflexivity.
Qed.

Lemma iter_shr_1_shifts (k : positive) :
  forall mrs : shr_record,
    0 <= shr_m mrs ->
    shr_m (iter_pos shr_1 k mrs) = shr_m mrs / 2 ^ Zpos k.
Proof.
  assert (Hpos : forall k', 0 < 2 ^ Zpos k')
    by (intros; apply Z.pow_pos_nonneg; lia).
  assert (Hhalf : forall mrs, 0 <= shr_m mrs -> 0 <= shr_m (shr_1 mrs)).
  { intros mrs H. rewrite shr_1_halves by exact H.
    apply Z.div_pos; lia. }
  induction k as [k IH | k IH |]; intros mrs Hm; cbn [iter_pos].
  - assert (H1 : 0 <= shr_m (iter_pos shr_1 k (shr_1 mrs))).
    { rewrite IH by auto. apply Z.div_pos; auto. }
    rewrite IH, IH, shr_1_halves by auto.
    replace (Zpos k~1) with (1 + (Zpos k + Zpos k)) by lia.
    rewrite !Z.pow_add_r by lia.
    rewrite !Z.div_div by (specialize (Hpos k); lia).
    reflexivity.
  - assert (H1 : 0 <= shr_m (iter_pos shr_1 k mrs)).
    { rewrite IH by auto. apply Z.div_pos; auto. }
    rewrite IH, IH by auto.
    replace (Zpos k~0) with (Zpos k + Zpos k) by lia.
    rewrite Z.pow_add_r by lia.
    rewrite Z.div_div by (specialize (Hpos k); lia).
    reflexivity.
  - now apply shr_1_halves.
Qed.

Lemma shr_record_of_loc_m (m : Z) (l : location) :
  shr_m (shr_record_of_loc m l) = m.
Proof. destruct l as [| []]; reflexivity. Qed.

Lemma round_nearest_even_bounds (m : Z) (l : location) :
  m <= round_nearest_even m l <= m + 1.
Proof.
  unfold round_nearest_even.
  destruct l as [| []]; try destruct (Z.even m); lia.
Qed.

(** Shifting a significand of at least 24 digits down to 24 digits. *)
Lemma shr_fexp_normal (p : positive) (e : Z) (l : location) :
  24 <= Zpos (digits2_pos p) ->
  -149 <= Zpos (digits2_pos p) + e - 24 ->
  exists mrs,
    shr_fexp 24 128 (Zpos p) e l = (mrs, e + Zpos (digits2_pos p) - 24) /\
    2 ^ 23 <= shr_m mrs < 2 ^ 24.
Proof.
  intros Hd He. pose proof (digits2_pos_bounds p) as Hp.
  set (d := Zpos (digits2_pos p)) in *.
  unfold shr_fexp, fexp, emin. cbn [Zdigits2]. fold d.
  rewrite Z.max_l by lia.
  replace (d + e - 24 - e) with (d - 24) by lia.
  unfold shr. destruct (d - 24) as [| k | k] eqn:Ek; try lia.
  - exists (shr_record_of_loc (Zpos p) l). split.
    + f_equal. lia.
    + rewrite shr_record_of_loc_m. replace d with 24 in Hp by lia. exact Hp.
  - exists (iter_pos shr_1 k (shr_record_of_loc (Zpos p) l)). split.
    + f_equal. lia.
    + rewrite iter_shr_1_shifts by (rewrite shr_record_of_loc_m; lia).
      rewrite shr_record_of_loc_m.
      assert (Hk : 0 < 2 ^ Zpos k) by (apply Z.pow_pos_nonneg; lia).
      replace (d - 1) with (23 + Zpos k) in Hp by lia.
      replace d with (24 + Zpos k) in Hp by lia.
      rewrite !Z.pow_add_r in Hp by lia.
      split.
      * apply Z.div_le_lower_bound; lia.
      * apply Z.div_lt_upper_bound; lia.
Qed.

(** Rounding a significand of at least 24 digits, away from the
    subnormal and overflow ranges, gives a normal number. *)
Lemma binary_round_aux_normal (s : bool) (p : positive) (e : Z)
    (l : location) :
  24 <= Zpos (digits2_pos p) ->
  -149 <= Zpos (digits2_pos p) + e - 24 ->
  Zpos (digits2_pos p) + e - 23 <= 104 ->
  exists (m : positive) (e' : Z),
    binary_round_aux 24 128 s (Zpos p) e l = S754_finite s m e' /\
    2 ^ 23 <= Zpos m < 2 ^ 24 /\
    Zpos (digits2_pos p) + e - 24 <= e' <= Zpos (digits2_pos p) + e - 23.
Proof.
  intros Hd Hlo Hhi. unfold binary_round_aux.
  destruct (shr_fexp_normal p e l Hd Hlo) as (mrs & -> & Hm1).
  set (d := Zpos (digits2_pos p)) in *.
  pose proof (round_nearest_even_bounds (shr_m mrs) (loc_of_shr_record mrs))
    as Hr.
  set (m2 := round_nearest_even (shr_m mrs) (loc_of_shr_record mrs)) in *.
  destruct m2 as [| p2 | p2] eqn:E2; try lia.
  assert (Hd2 : Zpos (digits2_pos p2) = 24 \/ Zpos (digits2_pos p2) = 25).
  { destruct (Z_lt_le_dec (Zpos p2) (2 ^ 24)).
    - left. apply digits2_pos_unique. cbn [Z.sub]. lia.
    - right. apply digits2_pos_unique. cbn. cbn in Hm1. lia. }
  destruct (shr_fexp_normal p2 (e + d - 24) loc_Exact) as (mrs2 & -> & Hm2);
    try lia.
  destruct (shr_m mrs2) as [| m | m] eqn:E; try lia.
  replace (e + d - 24 + Zpos (digits2_pos p2) - 24 <=? 128 - 24) with true
    by (symmetry; apply Z.leb_le; lia).
  exists m, (e + d - 24 + Zpos (digits2_pos p2) - 24).
  repeat split; lia.
Qed.

Lemma iter_xO_shifts (p k : positive) :
  Zpos (Pos.iter xO p k) = Zpos p * 2 ^ Zpos k.
Proof.
  change (Pos.iter xO p k) with (shift_pos k p).
  rewrite shift_pos_correct. change (Z.pow_pos 2 k) with (2 ^ Zpos k). lia.
Qed.

Lemma digits2_pos_le (p : positive) (k : Z) :
  0 <= k -> Zpos p < 2 ^ k -> Zpos (digits2_pos p) <= k.
Proof.
  intros Hk Hp. pose proof (digits2_pos_bounds p) as Hd.
  destruct (Z_le_gt_dec (Zpos (digits2_pos p)) k) as [| Hgt]; [assumption |].
  assert (2 ^ k <= 2 ^ (Zpos (digits2_pos p) - 1))
    by (apply Z.pow_le_mono_r; lia).
  lia.
Qed.

(** [(float)z] for a positive [uint32_t]. *)
Lemma f32_of_Z_normal (z : Z) :
  0 < z < 2 ^ 32 -> normal32 (-23) 9 (f32_of_Z z).
Proof.
  intros Hz. destruct z as [| p | p]; try lia.
  unfold f32_of_Z, prec32, emax32, binary_normalize, binary_round.
  pose proof (digits2_pos_bounds p) as Hp.
  assert (Hd32 : Zpos (digits2_pos p) <= 32) by (apply digits2_pos_le; lia).
  set (d := Zpos (digits2_pos p)) in *.
  unfold fexp, emin. rewrite Z.max_l by lia.
  unfold shl_align.
  destruct (d + 0 - 24 - 0) as [| k | k] eqn:Ek.
  - destruct (binary_round_aux_normal false p 0 loc_Exact)
      as (m & e & -> & Hm & He); fold d; try lia.
    exists m, e. repeat split; lia.
  - destruct (binary_round_aux_normal false p 0 loc_Exact)
      as (m & e & -> & Hm & He); fold d; try lia.
    exists m, e. repeat split; lia.
  - assert (Hmz : Zpos (digits2_pos (Pos.iter xO p k)) = 24).
    { apply digits2_pos_unique. rewrite iter_xO_shifts.
      assert (Hk : Zpos k = 24 - d) by lia.
      assert (E1 : 2 ^ (24 - 1) = 2 ^ (d - 1) * 2 ^ Zpos k)
        by (rewrite <- Z.pow_add_r by lia; f_equal; lia).
      assert (E2 : 2 ^ 24 = 2 ^ d * 2 ^ Zpos k)
        by (rewrite <- Z.pow_add_r by lia; f_equal; lia).
      rewrite E1, E2.
      assert (0 < 2 ^ Zpos k) by (apply Z.pow_pos_nonneg; lia).
      nia. }
    destruct (binary_round_aux_normal false (Pos.iter xO p k) (d + 0 - 24)
                loc_Exact)
      as (m & e & -> & Hm & He); rewrite ?Hmz; try lia.
    exists m, e. rewrite Hmz in He. repeat split; lia.
Qed.

Lemma f32_mul_normal (a b c d : Z) (x y : float32) :
  normal32 a b x -> normal32 c d y ->
  -149 <= a + c + 23 -> b + d + 25 <= 104 ->
  normal32 (a + c + 23) (b + d + 25) (f32_mul x y).
Proof.
  intros (mx & ex & -> & Hmx & Hex) (my & ey & -> & Hmy & Hey) Hlo Hhi.
  unfold f32_mul, prec32, emax32, SFmul. cbn [xorb].
  change (2 ^ 23) with 8388608 in *. change (2 ^ 24) with 16777216 in *.
  assert (Hprod : 2 ^ 46 <= Zpos (mx * my) < 2 ^ 48).
  { rewrite Pos2Z.inj_mul.
    change (2 ^ 46) with (8388608 * 8388608).
    change (2 ^ 48) with (16777216 * 16777216). nia. }
  assert (Hd : Zpos (digits2_pos (mx * my)) = 47 \/
               Zpos (digits2_pos (mx * my)) = 48).
  { destruct (Z_lt_le_dec (Zpos (mx * my)) (2 ^ 47)).
    - left. apply digits2_pos_unique. cbn [Z.sub]. lia.
    - right. apply digits2_pos_unique. cbn [Z.sub]. lia. }
  destruct (binary_round_aux_normal false (mx * my) (ex + ey) loc_Exact)
    as (m & e & -> & Hm & He); try lia.
  exists m, e. change (2 ^ 23) with 8388608 in *.
  change (2 ^ 24) with 16777216 in *. repeat split; lia.
Qed.

Lemma f32_div_normal (a b c d : Z) (x y : float32) :
  normal32 a b x -> normal32 c d y ->
  -149 <= a - d - 24 -> b - c - 22 <= 104 ->
  normal32 (a - d - 24) (b - c - 22) (f32_div x y).
Proof.
  intros (mx & ex & -> & Hmx & Hex) (my & ey & -> & Hmy & Hey) Hlo Hhi.
  unfold f32_div, prec32, emax32, SFdiv, SFdiv_core_binary. cbn [xorb Zdigits2].
  rewrite (digits2_pos_unique mx 24) by exact Hmx.
  rewrite (digits2_pos_unique my 24) by exact Hmy.
  unfold fexp, emin.
  replace (24 + ex - (24 + ey) - 24) with (ex - ey - 24) by lia.
  rewrite Z.max_l by lia. rewrite Z.min_l by lia.
  replace (ex - ey - (ex - ey - 24)) with 24 by lia.
  rewrite Z.shiftl_mul_pow2 by lia.
  change (2 ^ 23) with 8388608 in *. change (2 ^ 24) with 16777216 in *.
  destruct (Z.div_eucl (Zpos mx * 16777216) (Zpos my)) as [q r] eqn:E.
  assert (Hq : q = Zpos mx * 16777216 / Zpos my)
    by (unfold Z.div; now rewrite E).
  assert (Hqb : 2 ^ 23 <= q < 2 ^ 25).
  { rewrite Hq. change (2 ^ 23) with 8388608. change (2 ^ 25) with 33554432.
    split.
    - apply Z.div_le_lower_bound; lia.
    - apply Z.div_lt_upper_bound; lia. }
  destruct q as [| pq | pq]; try (cbn in Hqb; lia).
  assert (Hd : Zpos (digits2_pos pq) = 24 \/ Zpos (digits2_pos pq) = 25).
  { destruct (Z_lt_le_dec (Zpos pq) (2 ^ 24)).
    - left. apply digits2_pos_unique. cbn [Z.sub]. lia.
    - right. apply digits2_pos_unique. cbn [Z.sub]. lia. }
  destruct (binary_round_aux_normal false pq (ex - ey - 24)
              (new_location (Zpos my) r))
    as (m & e & -> & Hm & He); try lia.
  exists m, e. change (2 ^ 23) with 8388608 in *.
  change (2 ^ 24) with 16777216 in *. repeat split; lia.
Qed.

(** Converting a normal number below [2^32] to [uint32_t] is defined. *)
Lemma f32_to_uint32_normal (lo hi : Z) (f : float32) :
  normal32 lo hi f -> hi <= 8 ->
  exists v, f32_to_uint32 f = Some v /\ 0 <= v < 2 ^ 32.
Proof.
  intros (m & e & -> & Hm & He) Hhi.
  unfold f32_to_uint32, f32_trunc.
  set (a := match e with
            | 0 => Zpos m
            | Zpos _ => Zpos m * 2 ^ e
            | Zneg _ => Zpos m / 2 ^ (- e)
            end).
  assert (Ha : 0 <= a < 2 ^ 32).
  { change (2 ^ 23) with 8388608 in *. change (2 ^ 24) with 16777216 in *.
    change (2 ^ 32) with (16777216 * 2 ^ 8).
    unfold a. destruct e as [| pe | pe].
    - cbn. lia.
    - assert (0 < 2 ^ Zpos pe) by (apply Z.pow_pos_nonneg; lia).
      assert (2 ^ Zpos pe <= 2 ^ 8) by (apply Z.pow_le_mono_r; lia).
      nia.
    - assert (0 < 2 ^ (- Zneg pe)) by (apply Z.pow_pos_nonneg; lia).
      split.
      + apply Z.div_pos; lia.
      + assert (Zpos m / 2 ^ (- Zneg pe) <= Zpos m)
          by (apply Z.div_le_upper_bound; nia).
        change (2 ^ 8) with 256. lia. }
  exists a. split; [ | exact Ha].
  replace ((0 <=? a) && (a <? 2 ^ 32)) with true; [reflexivity |].
  symmetry. apply andb_true_intro.
  split; [apply Z.leb_le | apply Z.ltb_lt]; lia.
Qed.

(** ** The divider and the wrap value are always defined *)

Lemma f32_clk_sys_normal : normal32 3 3 (f32_of_Z 125000000).
Proof. exists 15625000%positive, 3. repeat split; cbn; lia. Qed.

Lemma f32_4_normal : normal32 (-21) (-21) f32_4.
Proof. exists 8388608%positive, (-21). repeat split; cbn; lia. Qed.

Lemma f32_16_normal : normal32 (-19) (-19) f32_16.
Proof. exists 8388608%positive, (-19). repeat split; cbn; lia. Qed.

Lemma pwm_top_defined (c : Z) (clk_div : float32) (freq_hz : Z) :
  normal32 c c clk_div -> -21 <= c <= -19 ->
  0 < freq_hz < 2 ^ 32 ->
  exists top, pwm_top 125000000 clk_div freq_hz = Some top /\
              0 <= top < 2 ^ 32.
Proof.
  intros Hdiv Hc Hf. unfold pwm_top.
  pose proof (f32_of_Z_normal freq_hz Hf) as Hfreq.
  assert (Hden : normal32 (c + -23 + 23) (c + 9 + 25)
                   (f32_mul clk_div (f32_of_Z freq_hz)))
    by (apply f32_mul_normal; assumption || lia).
  assert (Hquo : normal32 (3 - (c + 9 + 25) - 24) (3 - (c + -23 + 23) - 22)
                   (f32_div (f32_of_Z 125000000)
                      (f32_mul clk_div (f32_of_Z freq_hz))))
    by (apply f32_div_normal;
        [exact f32_clk_sys_normal | exact Hden | lia | lia]).
  destruct (f32_to_uint32_normal _ _ _ Hquo) as (q & -> & Hq); [lia |].
  exists (uint32_wrap (q - 1)). split; [reflexivity |].
  unfold uint32_wrap. apply Z.mod_pos_bound. lia.
Qed.

Lemma pwm_config_defined (freq_hz : Z) :
  0 < freq_hz < 2 ^ 32 ->
  exists clk_div top,
    pwm_config freq_hz = Some (clk_div, top) /\ 0 <= top <= 65535.
Proof.
  intros Hf. unfold pwm_config.
  destruct (pwm_top_defined (-21) f32_4 freq_hz f32_4_normal)
    as (t4 & -> & H4); [lia | exact Hf |].
  cbn [bind].
  destruct (Z.ltb_spec 65535 t4) as [Hbig | Hfit].
  - destruct (pwm_top_defined (-19) f32_16 freq_hz f32_16_normal)
      as (t16 & -> & H16); [lia | exact Hf |].
    cbn [bind]. eexists _, _. split; [reflexivity |].
    destruct (Z.ltb_spec 65535 t16); lia.
  - eexists _, _. split; [reflexivity | lia].
Qed.

(** ** The level at the two ends of the duty range *)

(** Dividing exactly by a power of two leaves no remainder bit. *)
Lemma shr_1_exact (z : Z) :
  0 <= z ->
  shr_1 (Build_shr_record (2 * z) false false)
  = Build_shr_record z false false.
Proof.
  intros Hz. destruct z as [| p | p]; [reflexivity | reflexivity | lia].
Qed.

Lemma iter_shr_1_exact (k : positive) :
  forall z : Z,
    0 <= z ->
    iter_pos shr_1 k (Build_shr_record (z * 2 ^ Zpos k) false false)
    = Build_shr_record z false false.
Proof.
  assert (Hpos : forall k', 0 < 2 ^ Zpos k')
    by (intros; apply Z.pow_pos_nonneg; lia).
  induction k as [k IH | k IH |]; intros z Hz; cbn [iter_pos].
  - replace (z * 2 ^ Zpos k~1) with (2 * (z * 2 ^ Zpos k * 2 ^ Zpos k)).
    2:{ replace (Zpos k~1) with (1 + (Zpos k + Zpos k)) by lia.
        rewrite !Z.pow_add_r by lia. change (2 ^ 1) with 2. lia. }
    specialize (Hpos k).
    rewrite shr_1_exact, IH, IH by nia. reflexivity.
  - replace (z * 2 ^ Zpos k~0) with (z * 2 ^ Zpos k * 2 ^ Zpos k).
    2:{ replace (Zpos k~0) with (Zpos k + Zpos k) by lia.
        rewrite !Z.pow_add_r by lia. lia. }
    specialize (Hpos k).
    rewrite IH, IH by nia. reflexivity.
  - change (2 ^ 1) with 2. rewrite Z.mul_comm. now apply shr_1_exact.
Qed.

(** A 24-digit significand is not rounded. *)
Lemma binary_round_aux_exact (p : positive) (e : Z) :
  Zpos (digits2_pos p) = 24 -> -149 <= e <= 104 ->
  binary_round_aux 24 128 false (Zpos p) e loc_Exact = S754_finite false p e.
Proof.
  intros Hd He. unfold binary_round_aux, shr_fexp, fexp, emin.
  cbn [Zdigits2 shr_record_of_loc]. rewrite Hd.
  replace (Z.max (24 + e - 24) (3 - 128 - 24) - e) with 0 by lia.
  cbn [shr shr_m loc_of_shr_record round_nearest_even Zdigits2
       shr_record_of_loc].
  rewrite Hd.
  replace (Z.max (24 + e - 24) (3 - 128 - 24) - e) with 0 by lia.
  cbn [shr shr_m].
  replace (e <=? 128 - 24) with true by (symmetry; apply Z.leb_le; lia).
  reflexivity.
Qed.

(** [(float)z] is exact for a positive [z] below [2^24]. *)
Lemma f32_of_Z_exact (z : Z) :
  0 < z < 2 ^ 24 ->
  exists (m : positive) (k : Z),
    f32_of_Z z = S754_finite false m (- k) /\
    0 <= k <= 23 /\
    Zpos m = z * 2 ^ k /\
    Zpos (digits2_pos m) = 24.
Proof.
  intros Hz. destruct z as [| p | p]; try lia.
  unfold f32_of_Z, prec32, emax32, binary_normalize, binary_round.
  pose proof (digits2_pos_bounds p) as Hp.
  assert (Hd24 : Zpos (digits2_pos p) <= 24) by (apply digits2_pos_le; lia).
  set (d := Zpos (digits2_pos p)) in *.
  unfold fexp, emin. rewrite Z.max_l by lia.
  unfold shl_align.
  destruct (d + 0 - 24 - 0) as [| k | k] eqn:Ek; try lia.
  - assert (Hd : Zpos (digits2_pos p) = 24) by (fold d; lia).
    rewrite (binary_round_aux_exact p 0 Hd) by lia.
    exists p, 0. repeat split; try lia; try exact Hd.
  - assert (Hmz : Zpos (digits2_pos (Pos.iter xO p k)) = 24).
    { apply digits2_pos_unique. rewrite iter_xO_shifts.
      assert (Hk : Zpos k = 24 - d) by lia.
      assert (E1 : 2 ^ (24 - 1) = 2 ^ (d - 1) * 2 ^ Zpos k)
        by (rewrite <- Z.pow_add_r by lia; f_equal; lia).
      assert (E2 : 2 ^ 24 = 2 ^ d * 2 ^ Zpos k)
        by (rewrite <- Z.pow_add_r by lia; f_equal; lia).
      rewrite E1, E2.
      assert (0 < 2 ^ Zpos k) by (apply Z.pow_pos_nonneg; lia).
      nia. }
    rewrite (binary_round_aux_exact _ (d + 0 - 24) Hmz) by lia.
    exists (Pos.iter xO p k), (Zpos k).
    split; [f_equal; lia |]. split; [lia |].
    split; [apply iter_xO_shifts | exact Hmz].
Qed.

(** Multiplying by [1.0f] changes nothing. *)
Lemma f32_mul_one (m : positive) (e : Z) :
  Zpos (digits2_pos m) = 24 -> -149 <= e <= 104 ->
  f32_mul (S754_finite false m e) f32_one = S754_finite false m e.
Proof.
  intros Hd He.
  change f32_one with (S754_finite false 8388608 (-23)).
  unfold f32_mul, prec32, emax32, SFmul. cbn [xorb].
  pose proof (digits2_pos_bounds m) as Hm. rewrite Hd in Hm.
  change (2 ^ (24 - 1)) with 8388608 in Hm.
  change (2 ^ 24) with 16777216 in Hm.
  assert (Hprod : Zpos (m * 8388608) = Zpos m * 2 ^ 23)
    by (rewrite Pos2Z.inj_mul; reflexivity).
  assert (Hd47 : Zpos (digits2_pos (m * 8388608)) = 47).
  { apply digits2_pos_unique. rewrite Hprod.
    change (2 ^ (47 - 1)) with (8388608 * 2 ^ 23).
    change (2 ^ 47) with (16777216 * 2 ^ 23).
    change (2 ^ 23) with 8388608. lia. }
  unfold binary_round_aux, shr_fexp, fexp, emin.
  cbn [Zdigits2 shr_record_of_loc]. rewrite Hd47.
  replace (Z.max (47 + (e + -23) - 24) (3 - 128 - 24) - (e + -23))
    with 23 by lia.
  cbn [shr]. rewrite Hprod.
  rewrite (iter_shr_1_exact 23 (Zpos m)) by lia.
  cbn [shr_m loc_of_shr_record round_nearest_even Zdigits2
       shr_record_of_loc].
  rewrite Hd.
  replace (Z.max (24 + (e + -23 + 23) - 24) (3 - 128 - 24) - (e + -23 + 23))
    with 0 by lia.
  cbn [shr shr_m].
  replace (e + -23 + 23 <=? 128 - 24) with true
    by (symmetry; apply Z.leb_le; lia).
  f_equal. lia.
Qed.

Lemma f32_to_uint32_exact (m : positive) (k z : Z) :
  0 <= k -> Zpos m = z * 2 ^ k -> 0 <= z < 2 ^ 32 ->
  f32_to_uint32 (S754_finite false m (- k)) = Some z.
Proof.
  intros Hk Hm Hz. unfold f32_to_uint32, f32_trunc.
  assert (Hv : match - k with
               | 0 => Zpos m
               | Zpos _ => Zpos m * 2 ^ (- k)
               | Zneg _ => Zpos m / 2 ^ (- - k)
               end = z).
  { destruct k as [| pk | pk]; try lia.
    - cbn in *. lia.
    - cbn [Z.opp]. rewrite Hm. apply Z.div_mul.
      assert (0 < 2 ^ Zpos pk) by (apply Z.pow_pos_nonneg; lia). lia. }
  rewrite Hv.
  replace ((0 <=? z) && (z <? 2 ^ 32)) with true; [reflexivity |].
  symmetry. apply andb_true_intro.
  split; [apply Z.leb_le | apply Z.ltb_lt]; lia.
Qed.

(** Duty 0 gives level 0 and duty 1 gives the wrap value itself. *)
Lemma pwm_level_extremes (top : Z) :
  0 <= top <= 65535 ->
  pwm_level top f32_zero = Some 0 /\ pwm_level top f32_one = Some top.
Proof.
  intros Htop. unfold pwm_level.
  destruct (Z.eq_dec top 0) as [-> | Hne]; [split; reflexivity |].
  destruct (f32_of_Z_exact top) as (m & k & -> & Hk & Hm & Hd);
    [change (2 ^ 24) with 16777216; lia |].
  split.
  - reflexivity.
  - rewrite f32_mul_one by (exact Hd || lia).
    apply f32_to_uint32_exact; lia.
Qed.

(** ** Clamping *)

Lemma clamp_duty_below (duty : float32) :
  f32_ltb duty f32_zero = true -> clamp_duty duty = f32_zero.
Proof.
  intros H. unfold clamp_duty. rewrite H. reflexivity.
Qed.

Lemma clamp_duty_above (duty : float32) :
  f32_ltb f32_one duty = true -> clamp_duty duty = f32_one.
Proof.
  intros H. unfold clamp_duty.
  assert (Hnot : f32_ltb duty f32_zero = false).
  { destruct duty as [[] | [] | | [] m e]; try reflexivity;
      discriminate H. }
  rewrite Hnot, H. reflexivity.
Qed.

Lemma play_tone_unfold (freq_hz ms : Z) (duty : float32) clk_div top level :
  freq_hz <> 0 ->
  pwm_config freq_hz = Some (clk_div, top) ->
  pwm_level top (clamp_duty duty) = Some level ->
  play_tone freq_hz ms duty
  = Some [ Pwm_set_clkdiv clk_div; Pwm_set_wrap top;
           Pwm_set_gpio_level BUZZER_PIN level; Sleep_ms ms;
           Pwm_set_gpio_level BUZZER_PIN 0 ].
Proof.
  intros Hf Hc Hl. unfold play_tone.
  apply Z.eqb_neq in Hf. rewrite Hf, Hc. cbn [bind].
  rewrite Hl. reflexivity.
Qed.

(** ** Rounding a product that does not exceed an integer *)

Lemma shr_fexp_eq (m e : Z) (l : location) :
  shr_fexp 24 128 m e l
  = shr (shr_record_of_loc m l) e (Z.max (Zdigits2 m + e - 24) (-149) - e).
Proof. reflexivity. Qed.

Lemma shr_no_shift (mrs : shr_record) (e n : Z) :
  n <= 0 -> shr mrs e n = (mrs, e).
Proof. intros Hn. destruct n; try lia; reflexivity. Qed.

Lemma shr_shift (mrs : shr_record) (e : Z) (k : positive) :
  shr mrs e (Zpos k) = (iter_pos shr_1 k mrs, e + Zpos k).
Proof. reflexivity. Qed.

(** The integral part of a number written [m * 2^e] with [e < 0]. *)
Lemma f32_to_uint32_small (m : positive) (e top : Z) :
  e < 0 -> 0 <= top < 2 ^ 32 ->
  Zpos m < 2 ^ (- e) * (top + 1) ->
  exists v, f32_to_uint32 (S754_finite false m e) = Some v /\ 0 <= v <= top.
Proof.
  intros He Htop Hm. unfold f32_to_uint32, f32_trunc.
  destruct e as [| pe | pe]; try lia.
  assert (Hpow : 0 < 2 ^ (- Zneg pe)) by (apply Z.pow_pos_nonneg; lia).
  assert (Hv : 0 <= Zpos m / 2 ^ (- Zneg pe) <= top).
  { split; [apply Z.div_pos; lia |].
    assert (Zpos m / 2 ^ (- Zneg pe) < top + 1); [ | lia].
    apply Z.div_lt_upper_bound; lia. }
  exists (Zpos m / 2 ^ (- Zneg pe)). split; [ | exact Hv].
  replace ((0 <=? Zpos m / 2 ^ (- Zneg pe))
           && (Zpos m / 2 ^ (- Zneg pe) <? 2 ^ 32)) with true;
    [reflexivity |].
  symmetry. apply andb_true_intro.
  split; [apply Z.leb_le | apply Z.ltb_lt]; lia.
Qed.

Lemma binary_round_aux_below (p : positive) (e top : Z) :
  e < 0 -> -300 <= e -> 0 <= top < 2 ^ 16 ->
  Zpos p <= top * 2 ^ (- e) ->
  exists v,
    f32_to_uint32 (binary_round_aux 24 128 false (Zpos p) e loc_Exact)
    = Some v /\ 0 <= v <= top.
Proof.
  intros He Hemin Htop Hp.
  pose proof (digits2_pos_bounds p) as Hd.
  set (d := Zpos (digits2_pos p)) in *.
  assert (Hpow : 0 < 2 ^ (- e)) by (apply Z.pow_pos_nonneg; lia).
  assert (Hde : d + e <= 16).
  { destruct (Z_le_gt_dec (d + e) 16) as [| Hgt]; [assumption |].
    assert (2 ^ (16 - e) <= 2 ^ (d - 1)) by (apply Z.pow_le_mono_r; lia).
    replace (16 - e) with (16 + - e) in * by lia.
    rewrite Z.pow_add_r in * by lia. nia. }
  assert (Htop32 : 0 <= top < 2 ^ 32).
  { change (2 ^ 16) with 65536 in Htop.
    change (2 ^ 32) with 4294967296. lia. }
  unfold binary_round_aux. rewrite shr_fexp_eq.
  cbn [Zdigits2 shr_record_of_loc]. fold d.
  set (e1 := Z.max (d + e - 24) (-149)).
  destruct (e1 - e) as [| k | k] eqn:En.
  - (* the significand already fits *)
    rewrite shr_no_shift by lia.
    cbn [shr_m loc_of_shr_record round_nearest_even].
    rewrite shr_fexp_eq. cbn [Zdigits2 shr_record_of_loc]. fold d. fold e1.
    rewrite En, shr_no_shift by lia. cbn [shr_m].
    replace (e <=? 128 - 24) with true by (symmetry; apply Z.leb_le; lia).
    apply f32_to_uint32_small; try assumption. nia.
  - (* [k] low bits are rounded away *)
    rewrite shr_shift.
    set (mrs := iter_pos shr_1 k (Build_shr_record (Zpos p) false false)).
    assert (Hm1 : shr_m mrs = Zpos p / 2 ^ Zpos k)
      by (unfold mrs; rewrite iter_shr_1_shifts; cbn [shr_m];
          [reflexivity | lia]).
    assert (Hk : 0 < 2 ^ Zpos k) by (apply Z.pow_pos_nonneg; lia).
    assert (He1 : e + Zpos k = e1) by lia.
    assert (He1neg : e1 <= -8) by (unfold e1; lia).
    assert (He1min : -149 <= e1) by (unfold e1; lia).
    assert (Hj : 0 < 2 ^ (- e1)) by (apply Z.pow_pos_nonneg; lia).
    assert (Hsplit : 2 ^ (- e) = 2 ^ (- e1) * 2 ^ Zpos k)
      by (rewrite <- Z.pow_add_r by lia; f_equal; lia).
    assert (Hm1top : shr_m mrs <= top * 2 ^ (- e1)).
    { rewrite Hm1. apply Z.div_le_upper_bound; [lia |]. rewrite Hsplit in Hp.
      nia. }
    assert (Hm1pos : 0 <= shr_m mrs) by (rewrite Hm1; apply Z.div_pos; lia).
    assert (Hm1small : shr_m mrs < 2 ^ 24).
    { rewrite Hm1. apply Z.div_lt_upper_bound; [lia |].
      assert (2 ^ d <= 2 ^ (Zpos k + 24)) by (apply Z.pow_le_mono_r; lia).
      rewrite Z.pow_add_r in * by lia. lia. }
    pose proof (round_nearest_even_bounds (shr_m mrs) (loc_of_shr_record mrs))
      as Hr.
    set (m2 := round_nearest_even (shr_m mrs) (loc_of_shr_record mrs)) in *.
    rewrite He1, shr_fexp_eq.
    assert (Hj1 : 2 <= 2 ^ (- e1)).
    { change 2 with (2 ^ 1) at 1. apply Z.pow_le_mono_r; lia. }
    destruct m2 as [| p2 | p2] eqn:E2; try lia.
    + cbn [Zdigits2 shr_record_of_loc].
      rewrite shr_no_shift by lia. cbn [shr_m f32_to_uint32 f32_trunc].
      exists 0. split; [ | lia].
      unfold f32_to_uint32. cbn. reflexivity.
    + cbn [Zdigits2 shr_record_of_loc].
      destruct (Z_lt_le_dec (Zpos p2) (2 ^ 24)) as [Hlt | Hge].
      * assert (Hd2 : Zpos (digits2_pos p2) <= 24)
          by (apply digits2_pos_le; lia).
        rewrite shr_no_shift by lia. cbn [shr_m].
        replace (e1 <=? 128 - 24) with true
          by (symmetry; apply Z.leb_le; lia).
        apply f32_to_uint32_small; try assumption; lia.
      * assert (Hp2 : p2 = 16777216%positive).
        { change (2 ^ 24) with 16777216 in *. lia. }
        subst p2. cbn [digits2_pos Pos.succ].
        replace (Z.max (25 + e1 - 24) (-149) - e1) with 1 by lia.
        cbn [shr iter_pos shr_1 shr_m].
        replace (e1 + 1 <=? 128 - 24) with true
          by (symmetry; apply Z.leb_le; lia).
        apply f32_to_uint32_small; try assumption; [lia |].
        assert (Hhalf : 2 ^ (- e1) = 2 * 2 ^ (- (e1 + 1))).
        { rewrite <- Z.pow_succ_r by lia. f_equal. lia. }
        change (2 ^ 24) with 16777216 in *.
        change (Zpos 8388608) with 8388608. lia.
  - (* the significand is already coarser than the format *)
    rewrite shr_no_shift by lia.
    cbn [shr_m loc_of_shr_record round_nearest_even].
    rewrite shr_fexp_eq. cbn [Zdigits2 shr_record_of_loc]. fold d. fold e1.
    rewrite En, shr_no_shift by lia. cbn [shr_m].
    replace (e <=? 128 - 24) with true by (symmetry; apply Z.leb_le; lia).
    apply f32_to_uint32_small; try assumption. nia.
Qed.

(** ** The level for a duty inside [0, 1] *)

(** A number that is not above [1.0f], read on its significand and its
    exponent. *)
Lemma f32_not_above_one (m : positive) (e : Z) :
  f32_valid (S754_finite false m e) = true ->
  f32_ltb f32_one (S754_finite false m e) = false ->
  e < 0 /\ -149 <= e /\ Zpos m <= 2 ^ (- e).
Proof.
  unfold f32_valid, valid_binary, bounded, canonical_mantissa, fexp, emin,
    prec32, emax32.
  intros Hvalid Hle. apply andb_prop in Hvalid. destruct Hvalid as [Hcan _].
  apply Z.eqb_eq in Hcan.
  pose proof (digits2_pos_bounds m) as Hd.
  set (d := Zpos (digits2_pos m)) in *.
  assert (Hd24 : d <= 24) by lia.
  assert (Hmin : -149 <= e) by lia.
  assert (Hm24 : Zpos m < 2 ^ 24).
  { assert (2 ^ d <= 2 ^ 24) by (apply Z.pow_le_mono_r; lia). lia. }
  change f32_one with (S754_finite false 8388608 (-23)) in Hle.
  unfold f32_ltb, SFltb, SFcompare in Hle.
  destruct (Z.compare_spec (-23) e) as [Heq | Hlt | Hgt];
    try discriminate Hle.
  - subst e. split; [lia |]. split; [lia |].
    change (2 ^ (- -23)) with 8388608.
    destruct (Pos.compare_cont Eq 8388608 m) eqn:Ec; try discriminate Hle.
    + apply Pos.compare_eq in Ec. lia.
    + assert (8388608 > m)%positive by exact Ec. lia.
  - split; [lia |]. split; [lia |].
    assert (2 ^ 24 <= 2 ^ (- e)) by (apply Z.pow_le_mono_r; lia). lia.
Qed.

Lemma pwm_level_in_range (top : Z) (m : positive) (e : Z) :
  0 <= top <= 65535 ->
  f32_valid (S754_finite false m e) = true ->
  f32_ltb f32_one (S754_finite false m e) = false ->
  exists level,
    pwm_level top (S754_finite false m e) = Some level /\
    0 <= level <= top.
Proof.
  intros Htop Hvalid Hle.
  destruct (f32_not_above_one m e Hvalid Hle) as (He & Hmin & Hm).
  unfold pwm_level.
  destruct (Z.eq_dec top 0) as [-> | Hne].
  - exists 0. split; [reflexivity | lia].
  - destruct (f32_of_Z_exact top) as (mt & k & -> & Hk & Hmt & _);
      [change (2 ^ 24) with 16777216; lia |].
    unfold f32_mul, prec32, emax32, SFmul. cbn [xorb].
    apply binary_round_aux_below;
      [lia | lia | change (2 ^ 16) with 65536; lia |].
    rewrite Pos2Z.inj_mul, Hmt.
    replace (- (- k + e)) with (k + - e) by lia.
    rewrite Z.pow_add_r by lia.
    assert (0 < 2 ^ k) by (apply Z.pow_pos_nonneg; lia).
    nia.
Qed.

Lemma pwm_level_signed_zero (top : Z) (s : bool) :
  0 <= top <= 65535 -> pwm_level top (S754_zero s) = Some 0.
Proof.
  intros Htop. unfold pwm_level.
  destruct (Z.eq_dec top 0) as [-> | Hne]; [now destruct s |].
  destruct (f32_of_Z_exact top) as (mt & k & -> & _);
    [change (2 ^ 24) with 16777216; lia |].
  now destruct s.
Qed.

(** The level written for any number a [float] can hold. *)
Lemma pwm_level_clamped (top : Z) (duty : float32) :
  0 <= top <= 65535 ->
  f32_valid duty = true -> f32_is_nan duty = false ->
  exists level,
    pwm_level top (clamp_duty duty) = Some level /\ 0 <= level <= top.
Proof.
  intros Htop Hvalid Hnan.
  destruct (pwm_level_extremes top Htop) as [Hl0 Hl1].
  destruct (f32_ltb duty f32_zero) eqn:Hneg.
  - rewrite (clamp_duty_below duty Hneg). exists 0. split; [exact Hl0 | lia].
  - destruct (f32_ltb f32_one duty) eqn:Hbig.
    + rewrite (clamp_duty_above duty Hbig).
      exists top. split; [exact Hl1 | lia].
    + assert (Hsame : clamp_duty duty = duty)
        by (unfold clamp_duty; now rewrite Hneg, Hbig).
      rewrite Hsame.
      destruct duty as [s | s | | s m e]; try discriminate.
      * exists 0. split; [now apply pwm_level_signed_zero | lia].
      * destruct s; discriminate.
      * destruct s; [discriminate Hneg |].
        now apply pwm_level_in_range.
Qed.

(** ** The divider *)

Lemma pwm_config_divider (freq_hz : Z) :
  0 < freq_hz < 2 ^ 32 ->
  exists clk_div top,
    pwm_config freq_hz = Some (clk_div, top) /\
    (clk_div = f32_4 \/ clk_div = f32_16) /\
    0 <= top <= 65535.
Proof.
  intros Hf. unfold pwm_config.
  destruct (pwm_top_defined (-21) f32_4 freq_hz f32_4_normal)
    as (t4 & -> & H4); [lia | exact Hf |].
  cbn [bind].
  destruct (Z.ltb_spec 65535 t4) as [Hbig | Hfit].
  - destruct (pwm_top_defined (-19) f32_16 freq_hz f32_16_normal)
      as (t16 & -> & H16); [lia | exact Hf |].
    cbn [bind]. eexists _, _. split; [reflexivity |]. split; [now right |].
    destruct (Z.ltb_spec 65535 t16); lia.
  - eexists _, _. split; [reflexivity |]. split; [now left | lia].
Qed.

(** ** The clamp *)

Lemma clamp_duty_inside (duty : float32) :
  f32_ltb duty f32_zero = false -> f32_ltb f32_one duty = false ->
  clamp_duty duty = duty.
Proof. intros H0 H1. unfold clamp_duty. now rewrite H0, H1. Qed.

Lemma f32_one_bits : f32_one = S754_finite false 8388608 (-23).
Proof. vm_compute. reflexivity. Qed.

(** Between two positive finite numbers, "not below" is "at least". *)
Lemma SFleb_of_not_SFltb (m1 m2 : positive) (e1 e2 : Z) :
  SFltb (S754_finite false m1 e1) (S754_finite false m2 e2) = false ->
  SFleb (S754_finite false m2 e2) (S754_finite false m1 e1) = true.
Proof.
  unfold SFltb, SFleb, SFcompare.
  rewrite (Z.compare_antisym e1 e2).
  destruct (e1 ?= e2) eqn:Ee; cbn [CompOpp]; intros H;
    try reflexivity; try discriminate H.
  change (Pos.compare_cont Eq m2 m1) with (m2 ?= m1)%positive.
  change (Pos.compare_cont Eq m1 m2) with (m1 ?= m2)%positive in H.
  rewrite (Pos.compare_antisym m1 m2).
  destruct (m1 ?= m2)%positive; cbn [CompOpp]; try reflexivity.
  discriminate H.
Qed.

Lemma unit_interval_ends :
  f32_leb f32_zero f32_zero = true /\ f32_leb f32_zero f32_one = true /\
  f32_leb f32_one f32_one = true.
Proof. repeat split; vm_compute; reflexivity. Qed.

(** For anything but a NaN, what the two tests leave lies between
    [0.0f] and [1.0f]. *)
Lemma clamp_duty_in_unit (duty : float32) :
  f32_is_nan duty = false ->
  f32_leb f32_zero (clamp_duty duty) = true /\
  f32_leb (clamp_duty duty) f32_one = true.
Proof.
  intros Hnan. destruct unit_interval_ends as (H00 & H01 & H11).
  destruct (f32_ltb duty f32_zero) eqn:Hneg.
  - rewrite (clamp_duty_below duty Hneg). split; assumption.
  - destruct (f32_ltb f32_one duty) eqn:Hbig.
    + rewrite (clamp_duty_above duty Hbig). split; assumption.
    + rewrite (clamp_duty_inside duty Hneg Hbig).
      destruct duty as [s | s | | s m e]; try discriminate Hnan.
      * rewrite f32_one_bits. split; reflexivity.
      * destruct s; [discriminate Hneg |].
        rewrite f32_one_bits in Hbig. discriminate Hbig.
      * destruct s; [discriminate Hneg |]. split; [reflexivity |].
        rewrite f32_one_bits in *.
        now apply SFleb_of_not_SFltb.
Qed.

(** C10, as stated, fails: a NaN is a value of the type [float], it is
    neither below 0 nor above 1, so the two tests leave it as it is; the
    duty from which the level is computed is then not in [[0, 1]], and C
    gives no meaning to the conversion of the product to [uint32_t]. *)
Lemma nan_duty_is_not_clamped :
  f32_valid f32_nan = true /\
  clamp_duty f32_nan = f32_nan /\
  f32_leb f32_zero (clamp_duty f32_nan) = false /\
  f32_leb (clamp_duty f32_nan) f32_one = false /\
  play_tone 1200 90 f32_nan = None /\
  ~ (forall duty : float32,
       f32_valid duty = true ->
       f32_leb f32_zero (clamp_duty duty) = true /\
       f32_leb (clamp_duty duty) f32_one = true).
Proof.
  assert (Hvalid : f32_valid f32_nan = true) by reflexivity.
  assert (Hge : f32_leb f32_zero (clamp_duty f32_nan) = false)
    by reflexivity.
  split; [exact Hvalid |].
  split; [reflexivity |].
  split; [exact Hge |].
  split; [reflexivity |].
  split; [vm_compute; reflexivity |].
  intros H. destruct (H f32_nan Hvalid) as [H0 _].
  rewrite Hge in H0. discriminate H0.
Qed.

(** C10, amended.  In a call [play_tone(f, ms, duty)] with [f > 0] and a
    duty that is not a NaN, the level is computed from the clamped duty,
    which lies in [[0, 1]]: a duty below 0 is replaced by 0 and gives the
    level 0, exactly as duty 0 does; a duty above 1 is replaced by 1 and
    gives the level [top], exactly as duty 1 does; any other duty is left
    as it is.  The call always completes, and the level it writes is
    never above the wrap value [top], itself at most 65535. *)
Theorem play_tone_duty_clamped :
  forall (freq_hz ms : Z) (duty : float32),
    0 < freq_hz < 2 ^ 32 ->
    f32_valid duty = true ->
    f32_is_nan duty = false ->
    exists (clk_div : float32) (top level : Z),
      pwm_config freq_hz = Some (clk_div, top) /\
      pwm_level top (clamp_duty duty) = Some level /\
      play_tone freq_hz ms duty
      = Some [ Pwm_set_clkdiv clk_div; Pwm_set_wrap top;
               Pwm_set_gpio_level BUZZER_PIN level; Sleep_ms ms;
               Pwm_set_gpio_level BUZZER_PIN 0 ] /\
      f32_leb f32_zero (clamp_duty duty) = true /\
      f32_leb (clamp_duty duty) f32_one = true /\
      0 <= level <= top /\ top <= 65535 /\
      (f32_ltb duty f32_zero = true ->
       clamp_duty duty = f32_zero /\ level = 0 /\
       play_tone freq_hz ms duty = play_tone freq_hz ms f32_zero) /\
      (f32_ltb f32_one duty = true ->
       clamp_duty duty = f32_one /\ level = top /\
       play_tone freq_hz ms duty = play_tone freq_hz ms f32_one) /\
      (f32_ltb duty f32_zero = false -> f32_ltb f32_one duty = false ->
       clamp_duty duty = duty).
Proof.
  intros freq_hz ms duty Hf Hvalid Hnan.
  assert (Hne : freq_hz <> 0) by lia.
  destruct (pwm_config_divider freq_hz Hf)
    as (clk_div & top & Hcfg & _ & Htop).
  destruct (pwm_level_clamped top duty Htop Hvalid Hnan)
    as (level & Hl & Hlevel).
  destruct (pwm_level_extremes top Htop) as [Hl0 Hl1].
  destruct (clamp_duty_in_unit duty Hnan) as [Hge Hle].
  exists clk_div, top, level.
  split; [exact Hcfg |]. split; [exact Hl |].
  split; [now apply play_tone_unfold |].
  split; [exact Hge |]. split; [exact Hle |].
  split; [exact Hlevel |]. split; [lia |].
  split; [ | split].
  - intros Hlt. pose proof (clamp_duty_below duty Hlt) as Hc.
    split; [exact Hc |].
    rewrite Hc, Hl0 in Hl. injection Hl as <-.
    split; [reflexivity |].
    rewrite (play_tone_unfold freq_hz ms duty clk_div top 0 Hne Hcfg)
      by (now rewrite Hc).
    now rewrite (play_tone_unfold freq_hz ms f32_zero clk_div top 0 Hne Hcfg).
  - intros Hgt. pose proof (clamp_duty_above duty Hgt) as Hc.
    split; [exact Hc |].
    rewrite Hc, Hl1 in Hl. injection Hl as <-.
    split; [reflexivity |].
    rewrite (play_tone_unfold freq_hz ms duty clk_div top top Hne Hcfg)
      by (now rewrite Hc).
    now rewrite (play_tone_unfold freq_hz ms f32_one clk_div top top Hne Hcfg).
  - apply clamp_duty_inside.
Qed.

Lemma play_tone_duty_clamped_witness :
  play_tone 1200 90 (f32_of_Z (-3)) = play_tone 1200 90 f32_zero /\
  play_tone 1200 90 (f32_of_Z 7) = play_tone 1200 90 f32_one /\
  clamp_duty f32_0_35 = f32_0_35.
Proof.
  assert (Hf : 0 < 1200 < 2 ^ 32) by (split; reflexivity).
  assert (Hv1 : f32_valid (f32_of_Z (-3)) = true)
    by (vm_compute; reflexivity).
  assert (Hn1 : f32_is_nan (f32_of_Z (-3)) = false)
    by (vm_compute; reflexivity).
  assert (Hb1 : f32_ltb (f32_of_Z (-3)) f32_zero = true)
    by (vm_compute; reflexivity).
  assert (Hv2 : f32_valid (f32_of_Z 7) = true)
    by (vm_compute; reflexivity).
  assert (Hn2 : f32_is_nan (f32_of_Z 7) = false)
    by (vm_compute; reflexivity).
  assert (Hb2 : f32_ltb f32_one (f32_of_Z 7) = true)
    by (vm_compute; reflexivity).
  assert (Hv3 : f32_valid f32_0_35 = true) by (vm_compute; reflexivity).
  assert (Hn3 : f32_is_nan f32_0_35 = false) by (vm_compute; reflexivity).
  assert (Hb3 : f32_ltb f32_0_35 f32_zero = false)
    by (vm_compute; reflexivity).
  assert (Hc3 : f32_ltb f32_one f32_0_35 = false)
    by (vm_compute; reflexivity).
  destruct (play_tone_duty_clamped 1200 90 (f32_of_Z (-3)) Hf Hv1 Hn1)
    as (d1 & t1 & l1 & _ & _ & _ & _ & _ & _ & _ & Hbelow & _ & _).
  destruct (play_tone_duty_clamped 1200 90 (f32_of_Z 7) Hf Hv2 Hn2)
    as (d2 & t2 & l2 & _ & _ & _ & _ & _ & _ & _ & _ & Habove & _).
  destruct (play_tone_duty_clamped 1200 90 f32_0_35 Hf Hv3 Hn3)
    as (d3 & t3 & l3 & _ & _ & _ & _ & _ & _ & _ & _ & _ & Hin).
  split; [exact (proj2 (proj2 (Hbelow Hb1))) |].
  split; [exact (proj2 (proj2 (Habove Hb2))) |].
  exact (Hin Hb3 Hc3).
Defined.

Example play_tone_duty_7 :
  play_tone 1200 90 (f32_of_Z 7)
  = Some [ Pwm_set_clkdiv f32_4; Pwm_set_wrap 26040;
           Pwm_set_gpio_level BUZZER_PIN 26040; Sleep_ms 90;
           Pwm_set_gpio_level BUZZER_PIN 0 ].
Proof. vm_compute. reflexivity. Qed.

(** A NaN is neither below 0 nor above 1: the two tests leave it as it
    is, and C gives no meaning to its conversion to [uint32_t]. *)
Example play_tone_nan_duty :
  f32_ltb f32_nan f32_zero = false /\
  f32_ltb f32_one f32_nan = false /\
  clamp_duty f32_nan = f32_nan /\
  play_tone 1200 90 f32_nan = None.
Proof. repeat split; vm_compute; reflexivity. Qed.

(* ====================================================================== *)
(** * The whole program                                                    *)
(* ====================================================================== *)

Lemma render_page_defined (i : Z) :
  0 <= i < NUM_PAGES -> exists evs, render_page i = Some evs.
Proof.
  rewrite NUM_PAGES_eq. intros Hi.
  assert (Hc : i = 0 \/ i = 1 \/ i = 2 \/ i = 3) by lia.
  destruct Hc as [-> | [-> | [-> | ->]]]; eexists; vm_compute; reflexivity.
Qed.

Lemma run_calls_defined (calls : list call) :
  Forall call_in_catalog calls -> exists evs, run_calls calls = Some evs.
Proof.
  induction 1 as [| c calls Hc Hcalls [evs' IH]]; cbn [run_calls].
  - eexists. reflexivity.
  - rewrite IH.
    assert (Hrun : exists evs, run_call c = Some evs).
    { destruct c as [| | i | ms]; cbn [run_call].
      - eexists. apply beep_first_page_trace.
      - eexists. apply beep_last_page_trace.
      - now apply render_page_defined.
      - eexists. reflexivity. }
    destruct Hrun as [evs ->]. eexists. reflexivity.
Qed.

(** Whatever the buttons and the clock do, every call made by [main]
    runs to completion: no render is asked for a page outside the
    catalog, no line overruns [linebuf], no conversion is undefined. *)
Lemma main_runs (t0 : Z) (envs : list tick_env) :
  exists evs, run_calls (snd (main t0 envs)) = Some evs.
Proof.
  apply run_calls_defined. unfold main. cbn [main_init].
  pose proof (main_loop_calls_in_catalog envs (mk_state 0 t0)) as H.
  destruct (main_loop envs (mk_state 0 t0)) as [st calls]. cbn [snd] in *.
  apply Forall_app. split.
  - repeat constructor; cbn; rewrite ?NUM_PAGES_eq; lia.
  - apply H. unfold page_in_range. rewrite NUM_PAGES_eq. cbn. lia.
Qed.

(* ====================================================================== *)
(** * Further properties of the polling loop                               *)
(* ====================================================================== *)

(** ** The debounce test *)

Lemma absolute_time_diff_us_exact from to :
  - 2 ^ 63 <= to - from < 2 ^ 63 -> absolute_time_diff_us from to = to - from.
Proof.
  intros H. unfold absolute_time_diff_us, uint64_wrap, int64_wrap.
  destruct (Z_lt_le_dec (to - from) 0) as [Hneg | Hpos].
  - replace ((to - from) mod 2 ^ 64) with (to - from + 2 ^ 64).
    2:{ apply Z.mod_unique with (q := -1); lia. }
    replace ((to - from + 2 ^ 64 + 2 ^ 63) mod 2 ^ 64)
      with (to - from + 2 ^ 63); [lia |].
    apply Z.mod_unique with (q := 1); lia.
  - now apply absolute_time_diff_us_small.
Qed.

(** X1.  As long as the two clock readings are less than [2^63]
    microseconds apart, a press passes the debounce test exactly when at
    least 181000 microseconds have elapsed since [last_change]: the
    integer division by 1000 makes the window 181 ms, not 180 ms, and a
    reading older than [last_change] never passes. *)
Theorem debounce_elapsed_threshold :
  forall last now : Z,
    - 2 ^ 63 <= now - last < 2 ^ 63 ->
    debounce_elapsed last now = (181000 <=? now - last).
Proof.
  intros last now H. unfold debounce_elapsed, DEBOUNCE_MS.
  rewrite absolute_time_diff_us_exact by exact H.
  set (d := now - last) in *.
  destruct (Z.leb_spec 181000 d) as [Hd | Hd].
  - apply Z.ltb_lt.
    assert (181 <= d ÷ 1000); [ | lia].
    apply Z.quot_le_lower_bound; lia.
  - apply Z.ltb_ge.
    destruct (Z_lt_le_dec d 0) as [Hneg | Hpos].
    + assert (d ÷ 1000 <= 0); [ | lia].
      apply Z.quot_le_upper_bound; lia.
    + assert (d ÷ 1000 < 181); [ | lia].
      apply Z.quot_lt_upper_bound; lia.
Qed.

Lemma debounce_elapsed_threshold_witness :
  debounce_elapsed 1000000 1180999 = false /\
  debounce_elapsed 1000000 1181000 = true.
Proof.
  split.
  - rewrite (debounce_elapsed_threshold 1000000 1180999); [reflexivity |].
    cbn. lia.
  - rewrite (debounce_elapsed_threshold 1000000 1181000); [reflexivity |].
    cbn. lia.
Defined.

(** ** One iteration *)

(** X2.  An iteration performs at most one action.  A render is always a
    render of the new [current_page], in an iteration that played no
    beep; a beep is played only in an iteration that leaves the page
    where it was; and whenever the page changes it is rendered. *)
Theorem one_action_per_iteration :
  forall (env : tick_env) (st : main_state),
    (nav_actions (snd (loop_body env st)) <= 1)%nat /\
    (forall i, In (Call_render_page i) (snd (loop_body env st)) ->
               i = current_page (fst (loop_body env st)) /\
               existsb is_beep (snd (loop_body env st)) = false) /\
    (existsb is_beep (snd (loop_body env st)) = true ->
     current_page (fst (loop_body env st)) = current_page st) /\
    (current_page (fst (loop_body env st)) <> current_page st ->
     In (Call_render_page (current_page (fst (loop_body env st))))
        (snd (loop_body env st))).
Proof.
  intros env st.
  loop_cases env st Hq Hc;
    (split; [cbn; lia |]); (split; [ | split]);
    try (intros i Hi; cbn in Hi;
         destruct Hi as [Hi | [Hi | Hi]]; try discriminate Hi;
         try contradiction;
         injection Hi as <-; split; reflexivity);
    try (intros i Hi; cbn in Hi;
         destruct Hi as [Hi | Hi]; try discriminate Hi; contradiction);
    try (intros H; cbn in H; discriminate H);
    try (intros H; reflexivity);
    try (intros H; now elim H);
    try (intros H; left; reflexivity).
Qed.

Lemma one_action_per_iteration_witness :
  current_page (fst (loop_body (mk_env pins_a 200000 200010) (mk_state 1 0)))
  = 2 /\
  existsb is_beep
    (snd (loop_body (mk_env pins_a 200000 200010) (mk_state 1 0))) = false.
Proof.
  pose proof (proj1 (proj2 (one_action_per_iteration
                              (mk_env pins_a 200000 200010) (mk_state 1 0)))
                2 (or_introl eq_refl)) as [H1 H2].
  split; [symmetry; exact H1 | exact H2].
Defined.

(** X3.  From a reachable state, an iteration moves [current_page] by at
    most one: up only on a qualifying press of Next made below the last
    page, down only on a qualifying press of Previous made above the
    first page. *)
Theorem page_moves_one_step :
  forall (env : tick_env) (st : main_state),
    reachable st ->
    (current_page (fst (loop_body env st)) = current_page st \/
     (current_page (fst (loop_body env st)) = current_page st + 1 /\
      qualifying_next env st /\ current_page st < NUM_PAGES - 1) \/
     (current_page (fst (loop_body env st)) = current_page st - 1 /\
      qualifying_previous env st /\ 0 < current_page st)).
Proof.
  intros env st Hreach. apply reachable_in_range in Hreach.
  unfold page_in_range in Hreach. rewrite NUM_PAGES_eq in Hreach.
  loop_cases env st Hq Hc; auto.
  - right. left. rewrite NUM_PAGES_eq in Hc.
    rewrite int_wrap_small by (unfold INT_MIN, INT_MAX; lia). auto.
  - right. right.
    rewrite int_wrap_small by (unfold INT_MIN, INT_MAX; lia). auto.
Qed.

Lemma page_moves_one_step_witness :
  current_page (fst (loop_body (mk_env pins_b 200000 200010) (mk_state 0 7)))
  = 0.
Proof.
  destruct (page_moves_one_step (mk_env pins_b 200000 200010) (mk_state 0 7)
              (reachable_init 7)) as [H | [[H _] | [_ [_ H]]]].
  - exact H.
  - discriminate H.
  - inversion H.
Defined.

(** X4.  A qualifying press of Next followed by a qualifying press of
    Previous brings back the page the loop was on, when that page was not
    the last one; likewise Previous followed by Next, when it was not the
    first one. *)
Theorem next_previous_round_trip :
  forall (env1 env2 : tick_env) (st : main_state),
    reachable st ->
    (current_page st < NUM_PAGES - 1 ->
     qualifying_next env1 st ->
     qualifying_previous env2 (fst (loop_body env1 st)) ->
     current_page (fst (loop_body env2 (fst (loop_body env1 st))))
     = current_page st) /\
    (0 < current_page st ->
     qualifying_previous env1 st ->
     qualifying_next env2 (fst (loop_body env1 st)) ->
     current_page (fst (loop_body env2 (fst (loop_body env1 st))))
     = current_page st).
Proof.
  intros env1 env2 st Hreach. apply reachable_in_range in Hreach.
  unfold page_in_range in Hreach. rewrite NUM_PAGES_eq in *.
  split; intros Hc Hq1.
  - rewrite (loop_body_next_advance _ _ Hq1 Hc).
    rewrite int_wrap_small by (unfold INT_MIN, INT_MAX; lia).
    intros Hq2. rewrite (loop_body_previous_retreat _ _ Hq2) by (cbn; lia).
    cbn [fst current_page].
    rewrite int_wrap_small by (unfold INT_MIN, INT_MAX; lia). lia.
  - rewrite (loop_body_previous_retreat _ _ Hq1 Hc).
    rewrite int_wrap_small by (unfold INT_MIN, INT_MAX; lia).
    intros Hq2.
    rewrite (loop_body_next_advance _ _ Hq2)
      by (cbn [fst current_page]; rewrite NUM_PAGES_eq; lia).
    cbn [fst current_page].
    rewrite int_wrap_small by (unfold INT_MIN, INT_MAX; lia). lia.
Qed.

Lemma next_previous_round_trip_witness :
  current_page
    (fst (loop_body (mk_env pins_b 400000 400010)
            (fst (loop_body (mk_env pins_a 200000 200010) (mk_state 0 7)))))
  = 0.
Proof.
  apply (proj1 (next_previous_round_trip (mk_env pins_a 200000 200010)
                  (mk_env pins_b 400000 400010) (mk_state 0 7)
                  (reachable_init 7))).
  - reflexivity.
  - split; reflexivity.
  - repeat split; reflexivity.
Defined.

(** ** Runs *)

Lemma main_loop_app (envs1 envs2 : list tick_env) :
  forall st,
    main_loop (envs1 ++ envs2) st
    = (fst (main_loop envs2 (fst (main_loop envs1 st))),
       snd (main_loop envs1 st)
       ++ snd (main_loop envs2 (fst (main_loop envs1 st)))).
Proof.
  induction envs1 as [| env envs1 IH]; intros st; cbn [main_loop app].
  - cbn [fst snd app]. now destruct (main_loop envs2 st).
  - destruct (loop_body env st) as [st1 calls1]. rewrite IH.
    destruct (main_loop envs1 st1) as [st2 calls2]. cbn [fst snd].
    now rewrite app_assoc.
Qed.

Lemma loop_body_last_change env st :
  last_change (fst (loop_body env st)) = last_change st \/
  last_change (fst (loop_body env st)) = time_at_mark env.
Proof. loop_cases env st Hq Hc; auto. Qed.

Lemma main_loop_last_change_monotone (envs : list tick_env) :
  forall (st : main_state) (t : Z),
    last_change st <= t ->
    clock_monotone t envs ->
    last_change st <= last_change (fst (main_loop envs st)).
Proof.
  induction envs as [| env envs IH]; intros st t Hle Hclock;
    cbn [main_loop].
  - cbn [fst]. lia.
  - destruct Hclock as (Hc & Hm & Hrest).
    pose proof (loop_body_last_change env st) as Hstep.
    destruct (loop_body env st) as [st1 calls1]. cbn [fst] in Hstep.
    assert (H1 : last_change st1 <= time_at_mark env) by lia.
    specialize (IH st1 (time_at_mark env) H1 Hrest).
    destruct (main_loop envs st1) as [st2 calls2]. cbn [fst] in *. lia.
Qed.

Lemma clock_monotone_app (envs1 envs2 : list tick_env) :
  forall t, clock_monotone t (envs1 ++ envs2) ->
            clock_monotone t envs1.
Proof.
  induction envs1 as [| env envs1 IH]; intros t H; cbn in *;
    [exact I | intuition].
Qed.

Lemma main_loop_last_change_bound (envs : list tick_env) :
  forall (st : main_state) (t : Z),
    last_change st <= t ->
    clock_monotone t envs ->
    exists t', last_change (fst (main_loop envs st)) <= t' /\
               forall envs2, clock_monotone t (envs ++ envs2) ->
                             clock_monotone t' envs2.
Proof.
  induction envs as [| env envs IH]; intros st t Hle Hclock;
    cbn [main_loop].
  - exists t. split; [exact Hle | intros envs2 H; exact H].
  - destruct Hclock as (Hc & Hm & Hrest).
    pose proof (loop_body_last_change env st) as Hstep.
    destruct (loop_body env st) as [st1 calls1]. cbn [fst] in Hstep.
    assert (H1 : last_change st1 <= time_at_mark env) by lia.
    destruct (IH st1 (time_at_mark env) H1 Hrest) as (t' & Ht' & Hnext).
    destruct (main_loop envs st1) as [st2 calls2]. cbn [fst] in *.
    exists t'. split; [exact Ht' |].
    intros envs2 H. apply Hnext. apply H.
Qed.

(** X5.  When the clock readings never go back, [last_change] never
    decreases along a run of [main]: its value after more iterations is
    at least its value after fewer. *)
Theorem last_change_never_decreases :
  forall (t0 : Z) (envs1 envs2 : list tick_env),
    clock_monotone t0 (envs1 ++ envs2) ->
    last_change (fst (main t0 envs1))
    <= last_change (fst (main t0 (envs1 ++ envs2))).
Proof.
  intros t0 envs1 envs2 Hclock. unfold main. cbn [main_init].
  rewrite main_loop_app.
  destruct (main_loop_last_change_bound envs1 (mk_state 0 t0) t0)
    as (t' & Ht' & Hnext);
    [cbn; lia | now apply clock_monotone_app with (envs2 := envs2) |].
  specialize (Hnext envs2 Hclock).
  pose proof (main_loop_last_change_monotone envs2
                (fst (main_loop envs1 (mk_state 0 t0))) t' Ht' Hnext) as H.
  destruct (main_loop envs1 (mk_state 0 t0)) as [st1 calls1].
  cbn [fst snd] in *.
  destruct (main_loop envs2 st1) as [st2 calls2]. exact H.
Qed.

Lemma last_change_never_decreases_witness :
  last_change (fst (main 0 [mk_env pins_a 200000 200010]))
  <= last_change
       (fst (main 0 ([mk_env pins_a 200000 200010]
                     ++ [mk_env pins_b 400000 400010]))).
Proof.
  apply last_change_never_decreases. cbn. lia.
Defined.

(** X6.  With both buttons released in every iteration, whatever the
    clock reads, the loop only sleeps: the state is unchanged and no page
    is rendered, no tone played. *)
Theorem released_buttons_do_nothing :
  forall (envs : list tick_env) (st : main_state),
    Forall released envs ->
    main_loop envs st
    = (st, repeat (Call_sleep_ms 10) (List.length envs)).
Proof.
  induction envs as [| env envs IH]; intros st Hrel; cbn [main_loop].
  - reflexivity.
  - inversion Hrel as [| e l [Ha Hb] Hrest]; subst.
    rewrite (loop_body_released env st Ha Hb), (IH st Hrest). reflexivity.
Qed.

Lemma released_buttons_do_nothing_witness :
  main_loop [mk_env pins_idle 5 5; mk_env pins_idle 900000 900000]
    (mk_state 2 0)
  = (mk_state 2 0, [Call_sleep_ms 10; Call_sleep_ms 10]).
Proof.
  apply (released_buttons_do_nothing
           [mk_env pins_idle 5 5; mk_env pins_idle 900000 900000]).
  repeat constructor.
Defined.

Lemma main_loop_presses_next (envs : list tick_env) :
  forall st : main_state,
    page_in_range st ->
    presses_next (last_change st) envs ->
    current_page (fst (main_loop envs st))
    = Z.min (current_page st + Z.of_nat (List.length envs)) (NUM_PAGES - 1)
    /\
    Z.of_nat (beeps (snd (main_loop envs st)))
    = current_page st + Z.of_nat (List.length envs)
      - current_page (fst (main_loop envs st)).
Proof.
  unfold page_in_range. rewrite NUM_PAGES_eq.
  induction envs as [| env envs IH]; intros st Hr Hp; cbn [main_loop].
  - cbn [fst snd List.length beeps filter]. cbn. lia.
  - destruct Hp as (Ha & Hd & Hrest).
    assert (Hq : qualifying_next env st) by (split; assumption).
    destruct (Z_lt_le_dec (current_page st) (NUM_PAGES - 1)) as [Hc | Hc].
    + rewrite (loop_body_next_advance _ _ Hq Hc).
      rewrite NUM_PAGES_eq in Hc.
      rewrite int_wrap_small by (unfold INT_MIN, INT_MAX; lia).
      specialize (IH (mk_state (current_page st + 1) (time_at_mark env))).
      cbn [current_page last_change] in IH.
      destruct IH as [IH1 IH2]; [lia | exact Hrest |].
      destruct (main_loop envs _) as [st2 calls2]. cbn [fst snd] in *.
      unfold beeps in *. cbn [app filter is_beep List.length].
      rewrite Nat2Z.inj_succ. lia.
    + rewrite (loop_body_next_boundary _ _ Hq Hc).
      rewrite NUM_PAGES_eq in Hc.
      specialize (IH (mk_state (current_page st) (time_at_mark env))).
      cbn [current_page last_change] in IH.
      destruct IH as [IH1 IH2]; [lia | exact Hrest |].
      destruct (main_loop envs _) as [st2 calls2]. cbn [fst snd] in *.
      unfold beeps in *. cbn [app filter is_beep List.length].
      rewrite !Nat2Z.inj_succ. lia.
Qed.

(** X7.  After [n] qualifying presses of Next in a row, the loop is on
    page [min (current_page + n) (NUM_PAGES - 1)]: it advances one page
    per press and stays on the last page once there, and it has played
    one boundary beep for each press made on the last page. *)
Theorem repeated_next_saturates :
  forall (envs : list tick_env) (st : main_state),
    reachable st ->
    presses_next (last_change st) envs ->
    current_page (fst (main_loop envs st))
    = Z.min (current_page st + Z.of_nat (List.length envs)) (NUM_PAGES - 1)
    /\
    Z.of_nat (beeps (snd (main_loop envs st)))
    = current_page st + Z.of_nat (List.length envs)
      - current_page (fst (main_loop envs st)).
Proof.
  intros envs st Hreach. apply main_loop_presses_next.
  now apply reachable_in_range.
Qed.

Lemma repeated_next_saturates_witness :
  current_page (fst (main_loop (next_every_200ms 7 5) (mk_state 0 7))) = 3 /\
  Z.of_nat (beeps (snd (main_loop (next_every_200ms 7 5) (mk_state 0 7))))
  = 2.
Proof.
  destruct (repeated_next_saturates (next_every_200ms 7 5) (mk_state 0 7)
              (reachable_init 7)) as [H1 H2].
  - repeat split; reflexivity.
  - split; [exact H1 | rewrite H2, H1; reflexivity].
Defined.

(** X8.  After [n] qualifying presses of Previous in a row, the loop is
    on page [max (current_page - n) 0], and it has played one boundary
    beep for each press made on the first page. *)
Theorem repeated_previous_saturates :
  forall (envs : list tick_env) (st : main_state),
    reachable st ->
    presses_previous (last_change st) envs ->
    current_page (fst (main_loop envs st))
    = Z.max (current_page st - Z.of_nat (List.length envs)) 0
    /\
    Z.of_nat (beeps (snd (main_loop envs st)))
    = current_page (fst (main_loop envs st))
      - (current_page st - Z.of_nat (List.length envs)).
Proof.
  intros envs st Hreach. apply reachable_in_range in Hreach.
  revert st Hreach. unfold page_in_range. rewrite NUM_PAGES_eq.
  induction envs as [| env envs IH]; intros st Hr Hp; cbn [main_loop].
  - cbn [fst snd List.length beeps filter]. cbn. lia.
  - destruct Hp as (Ha & Hb & Hd & Hrest).
    assert (Hq : qualifying_previous env st) by (repeat split; assumption).
    destruct (Z_lt_le_dec 0 (current_page st)) as [Hc | Hc].
    + rewrite (loop_body_previous_retreat _ _ Hq Hc).
      rewrite int_wrap_small by (unfold INT_MIN, INT_MAX; lia).
      specialize (IH (mk_state (current_page st - 1) (time_at_mark env))).
      cbn [current_page last_change] in IH.
      destruct IH as [IH1 IH2]; [lia | exact Hrest |].
      destruct (main_loop envs _) as [st2 calls2]. cbn [fst snd] in *.
      unfold beeps in *. cbn [app filter is_beep List.length].
      rewrite Nat2Z.inj_succ. lia.
    + rewrite (loop_body_previous_boundary _ _ Hq Hc).
      specialize (IH (mk_state (current_page st) (time_at_mark env))).
      cbn [current_page last_change] in IH.
      destruct IH as [IH1 IH2]; [lia | exact Hrest |].
      destruct (main_loop envs _) as [st2 calls2]. cbn [fst snd] in *.
      unfold beeps in *. cbn [app filter is_beep List.length].
      rewrite !Nat2Z.inj_succ. lia.
Qed.

Lemma repeated_previous_saturates_witness :
  current_page
    (fst (main_loop [mk_env pins_b 200007 200007; mk_env pins_b 400007 400007]
            (mk_state 0 7)))
  = 0.
Proof.
  destruct (repeated_previous_saturates
              [mk_env pins_b 200007 200007; mk_env pins_b 400007 400007]
              (mk_state 0 7) (reachable_init 7)) as [H1 H2].
  - repeat split; reflexivity.
  - exact H1.
Defined.

Lemma presses_next_every_200ms (n : nat) :
  forall t, presses_next t (next_every_200ms t n).
Proof.
  induction n as [| n IH]; intros t; cbn [next_every_200ms presses_next].
  - exact I.
  - split; [reflexivity |]. split; [ | apply IH].
    cbn [time_at_check]. rewrite debounce_elapsed_threshold.
    + apply Z.leb_le. lia.
    + replace (t + 200000 - t) with 200000 by lia. cbn. lia.
Qed.

Lemma next_every_200ms_length (t : Z) (n : nat) :
  List.length (next_every_200ms t n) = n.
Proof.
  revert t. induction n as [| n IH]; intros t; cbn; [reflexivity |].
  now rewrite IH.
Qed.

(** X9.  Every page of the catalog can be reached: whatever the clock
    read at start-up, pressing Next [i] times, 200 ms apart, leaves
    [main] on page [i]. *)
Theorem every_page_reachable :
  forall (t0 i : Z),
    0 <= i < NUM_PAGES ->
    current_page (fst (main t0 (next_every_200ms t0 (Z.to_nat i)))) = i.
Proof.
  intros t0 i Hi. unfold main. cbn [main_init].
  pose proof (main_loop_presses_next (next_every_200ms t0 (Z.to_nat i))
                (mk_state 0 t0)) as H.
  destruct H as [H _].
  - unfold page_in_range. rewrite NUM_PAGES_eq. cbn. lia.
  - apply presses_next_every_200ms.
  - destruct (main_loop _ _) as [st calls]. cbn [fst current_page] in *.
    rewrite H, next_every_200ms_length. lia.
Qed.

Lemma every_page_reachable_witness :
  current_page (fst (main 12 (next_every_200ms 12 (Z.to_nat 3)))) = 3.
Proof.
  apply every_page_reachable. rewrite NUM_PAGES_eq. lia.
Defined.

(** ** The display follows the page *)

Lemma shown_page_app (shown : option Z) (calls1 calls2 : list call) :
  shown_page shown (calls1 ++ calls2)
  = shown_page (shown_page shown calls1) calls2.
Proof. apply fold_left_app. Qed.

Lemma loop_body_shown_page env st :
  shown_page (Some (current_page st)) (snd (loop_body env st))
  = Some (current_page (fst (loop_body env st))).
Proof. loop_cases env st Hq Hc; reflexivity. Qed.

Lemma main_loop_shown_page (envs : list tick_env) :
  forall st,
    shown_page (Some (current_page st)) (snd (main_loop envs st))
    = Some (current_page (fst (main_loop envs st))).
Proof.
  induction envs as [| env envs IH]; intros st; cbn [main_loop].
  - reflexivity.
  - pose proof (loop_body_shown_page env st) as H1.
    destruct (loop_body env st) as [st1 calls1]. cbn [fst snd] in H1.
    specialize (IH st1).
    destruct (main_loop envs st1) as [st2 calls2]. cbn [fst snd] in *.
    now rewrite shown_page_app, H1.
Qed.

(** X10.  The display always shows the current page: at any point of a
    run of [main], the last page passed to [render_page] is
    [current_page]. *)
Theorem display_shows_current_page :
  forall (t0 : Z) (envs : list tick_env),
    shown_page None (snd (main t0 envs))
    = Some (current_page (fst (main t0 envs))).
Proof.
  intros t0 envs. unfold main. cbn [main_init].
  pose proof (main_loop_shown_page envs (mk_state 0 t0)) as H.
  destruct (main_loop envs (mk_state 0 t0)) as [st calls].
  cbn [fst snd current_page] in *.
  rewrite shown_page_app. exact H.
Qed.

(* ====================================================================== *)
(** * Further properties of the text layout and of the page renderer       *)
(* ====================================================================== *)

Lemma c_str_app_nul (s junk : list ascii) :
  c_str (s ++ NUL :: junk) = c_str s.
Proof.
  induction s as [| c s IH]; cbn [app c_str].
  - reflexivity.
  - destruct (is_nul c); [reflexivity | now rewrite IH].
Qed.

Lemma c_str_app_nl (s : list ascii) :
  c_str (s ++ [NL]) = c_str s \/ c_str (s ++ [NL]) = c_str s ++ [NL].
Proof.
  induction s as [| c s IH]; cbn [app c_str].
  - right. reflexivity.
  - destruct (is_nul c); [left; reflexivity |].
    destruct IH as [-> | ->]; [left | right]; reflexivity.
Qed.

Lemma split_lines_snoc_nl (s : cstring) :
  split_lines (s ++ [NL]) = split_lines s ++ [[]].
Proof.
  induction s as [| c s IH]; cbn [app split_lines].
  - reflexivity.
  - destruct (is_nl c); rewrite IH; [reflexivity |].
    destruct (split_lines s) as [| l ls] eqn:E.
    + now elim (split_lines_not_nil s).
    + reflexivity.
Qed.

Lemma draw_entries_layout_app x (ls1 ls2 : list cstring) :
  forall y, exists y',
    draw_entries x (layout y (ls1 ++ ls2))
    = draw_entries x (layout y ls1) ++ draw_entries x (layout y' ls2).
Proof.
  induction ls1 as [| l ls1 IH]; intros y; cbn [app layout].
  - exists y. reflexivity.
  - destruct (IH (int_wrap (y + LINE_H))) as [y' Hy'].
    exists y'. unfold draw_entries in *. cbn [flat_map].
    now rewrite Hy', app_assoc.
Qed.

(** X11.  A line break at the very end of the text changes nothing:
    [oled_println_buf] makes the same calls for [text] followed by
    ['\n'] as for [text]. *)
Theorem println_trailing_newline :
  forall (x y : Z) (text : cstring),
    Z.of_nat (List.length (text ++ [NL])) <= INT_MAX ->
    oled_println_buf x y (text ++ [NL]) = oled_println_buf x y text.
Proof.
  intros x y text Hsize.
  assert (Hsize' : Z.of_nat (List.length text) <= INT_MAX)
    by (rewrite length_app in Hsize; lia).
  rewrite !oled_println_buf_layout by assumption.
  destruct (c_str_app_nl text) as [-> | ->]; [reflexivity |].
  rewrite split_lines_snoc_nl.
  destruct (draw_entries_layout_app x (split_lines (c_str text)) [[]] y)
    as [y' ->].
  cbn. now rewrite app_nil_r.
Qed.

Lemma println_trailing_newline_witness :
  oled_println_buf 5 0 (lit "ab" ++ [NL]) = oled_println_buf 5 0 (lit "ab").
Proof.
  apply println_trailing_newline. vm_compute. discriminate.
Defined.

(** X12.  Nothing after the first ['\0'] is looked at: the calls made for
    a text do not depend on what follows its terminator. *)
Theorem println_stops_at_terminator :
  forall (x y : Z) (text junk : list ascii),
    Z.of_nat (List.length (text ++ NUL :: junk)) <= INT_MAX ->
    oled_println_buf x y (text ++ NUL :: junk) = oled_println_buf x y text.
Proof.
  intros x y text junk Hsize.
  assert (Hsize' : Z.of_nat (List.length text) <= INT_MAX)
    by (rewrite length_app in Hsize; lia).
  rewrite !oled_println_buf_layout by assumption.
  now rewrite c_str_app_nul.
Qed.

Lemma println_stops_at_terminator_witness :
  oled_println_buf 5 0 (lit "ab" ++ NUL :: lit "cd")
  = oled_println_buf 5 0 (lit "ab").
Proof.
  apply println_stops_at_terminator. vm_compute. discriminate.
Defined.

Lemma c_str_plain (s : cstring) :
  Forall (fun c => is_nul c = false) s -> c_str s = s.
Proof.
  induction 1 as [| c s Hc Hs IH]; cbn [c_str]; [reflexivity |].
  now rewrite Hc, IH.
Qed.

Lemma c_str_app_plain (l rest : list ascii) :
  Forall plain l -> c_str (l ++ rest) = l ++ c_str rest.
Proof.
  induction 1 as [| c l [Hc _] Hl IH]; cbn [app c_str]; [reflexivity |].
  now rewrite Hc, IH.
Qed.

(** X13.  The layout is compositional: for a text that starts with a
    line [line] followed by a line break, [oled_println_buf] draws [line]
    at row [y] (nothing if it is empty, the whole of it if it has at most
    127 characters) and then does what it does for the rest of the text
    at row [y + LINE_H]. *)
Theorem println_first_line_then_rest :
  forall (x y : Z) (line rest : cstring),
    Forall plain line ->
    Z.of_nat (List.length (line ++ NL :: rest)) <= INT_MAX ->
    INT_MIN <= y + LINE_H <= INT_MAX ->
    exists tail : list hw_event,
      oled_println_buf x (y + LINE_H) rest = Some tail /\
      oled_println_buf x y (line ++ NL :: rest)
      = Some (draw_entry x (line, y) ++ tail) /\
      (line = [] -> draw_entry x (line, y) = []) /\
      (line <> [] -> (List.length line <= MAX_LINE)%nat ->
       draw_entry x (line, y) = [Ssd1306_draw_string x y line]).
Proof.
  intros x y line rest Hplain Hsize Hy.
  assert (Hsize' : Z.of_nat (List.length rest) <= INT_MAX)
    by (rewrite length_app in Hsize; cbn [List.length] in Hsize; lia).
  exists (draw_entries x (layout (y + LINE_H) (split_lines (c_str rest)))).
  split; [now apply oled_println_buf_layout |]. split; [ | split].
  - rewrite (oled_println_buf_layout x y _ Hsize).
    rewrite (c_str_app_plain line (NL :: rest) Hplain).
    change (c_str (NL :: rest)) with (NL :: c_str rest).
    rewrite (split_lines_app_nl line (c_str rest) Hplain).
    cbn [layout draw_entries flat_map].
    now rewrite (int_wrap_small (y + LINE_H)).
  - intros ->. reflexivity.
  - intros Hne Hlen. destruct line as [| c line]; [now elim Hne |].
    unfold draw_entry. cbn [fst snd]. now rewrite firstn_all2.
Qed.

Lemma println_first_line_then_rest_witness :
  exists tail : list hw_event,
    oled_println_buf 5 8 (lit "cd") = Some tail /\
    oled_println_buf 5 0 (lit "ab" ++ NL :: lit "cd")
    = Some (draw_entry 5 (lit "ab", 0) ++ tail).
Proof.
  destruct (println_first_line_then_rest 5 0 (lit "ab") (lit "cd"))
    as (tail & H1 & H2 & _).
  - repeat constructor.
  - vm_compute. discriminate.
  - vm_compute. split; discriminate.
  - exists tail. split; [exact H1 | exact H2].
Defined.

Lemma split_lines_all_nl (s : cstring) :
  Forall (fun c => c = NL) s ->
  Forall (fun l => l = []) (split_lines s).
Proof.
  induction 1 as [| c s -> Hs IH]; cbn [split_lines].
  - repeat constructor.
  - change (is_nl NL) with true. cbn iota.
    constructor; [reflexivity | exact IH].
Qed.

Lemma draw_entries_blank x (lines : list cstring) :
  Forall (fun l => l = []) lines ->
  forall y, draw_entries x (layout y lines) = [].
Proof.
  induction 1 as [| l lines -> Hl IH]; intros y; cbn [layout].
  - reflexivity.
  - unfold draw_entries in *. cbn [flat_map draw_entry fst app]. apply IH.
Qed.

(** X14.  A text with no character other than line breaks, the empty text
    included, draws nothing: [ssd1306_draw_string] is never called with
    an empty line. *)
Theorem println_blank_text_draws_nothing :
  forall (x y : Z) (text : cstring),
    Forall (fun c => c = NL) text ->
    Z.of_nat (List.length text) <= INT_MAX ->
    oled_println_buf x y text = Some [].
Proof.
  intros x y text Hnl Hsize.
  rewrite (oled_println_buf_layout x y text Hsize).
  rewrite c_str_plain.
  - now rewrite draw_entries_blank by now apply split_lines_all_nl.
  - eapply Forall_impl; [ | exact Hnl]. intros c ->. reflexivity.
Qed.

Lemma println_blank_text_draws_nothing_witness :
  oled_println_buf 5 0 [NL; NL; NL] = Some [].
Proof.
  apply println_blank_text_draws_nothing.
  - repeat constructor.
  - vm_compute. discriminate.
Defined.

Lemma draws_on_rows_weaken x y (n n' : nat) (ev : hw_event) :
  (n <= n')%nat -> draws_on_rows x y n ev -> draws_on_rows x y n' ev.
Proof.
  intros Hn (k & s & He & Hk & Hs & Hl). exists k, s.
  split; [exact He |]. split; [lia |]. split; assumption.
Qed.

Lemma draw_entries_layout_rows x (y0 : Z) (ls : list cstring) :
  INT_MIN <= y0 ->
  forall (l : cstring) (k0 : nat),
    row y0 (k0 + List.length ls) <= INT_MAX ->
    (List.length (draw_entries x (layout (row y0 k0) (l :: ls)))
     <= S (List.length ls))%nat /\
    Forall (draws_on_rows x y0 (k0 + List.length ls))
      (draw_entries x (layout (row y0 k0) (l :: ls))) /\
    rows_increase (row y0 k0)
      (draw_entries x (layout (row y0 k0) (l :: ls))).
Proof.
  intros Hlo. unfold row, LINE_H in *.
  induction ls as [| l' ls IH]; intros l k0 Hhi.
  - cbn [layout draw_entries flat_map]. rewrite app_nil_r.
    unfold draw_entry. cbn [fst snd]. destruct l as [| c l].
    + repeat split; cbn; auto.
    + cbn [List.length rows_increase]. split; [lia |]. split.
      * constructor; [ | constructor].
        exists k0, (firstn MAX_LINE (c :: l)). unfold row, LINE_H.
        repeat split; try lia; try discriminate.
        rewrite length_firstn. apply Nat.le_min_l.
      * split; [lia | exact I].
  - cbn [List.length] in Hhi.
    change (layout (y0 + 8 * Z.of_nat k0) (l :: l' :: ls))
      with ((l, y0 + 8 * Z.of_nat k0)
            :: layout (int_wrap (y0 + 8 * Z.of_nat k0 + LINE_H)) (l' :: ls)).
    unfold LINE_H.
    rewrite int_wrap_small by (unfold INT_MIN, INT_MAX in *; lia).
    replace (y0 + 8 * Z.of_nat k0 + 8) with (y0 + 8 * Z.of_nat (S k0))
      by lia.
    specialize (IH l' (S k0)).
    destruct IH as (IHlen & IHall & IHinc); [lia |].
    unfold draw_entries in *. cbn [flat_map].
    remember (flat_map (draw_entry x)
                (layout (y0 + 8 * Z.of_nat (S k0)) (l' :: ls))) as tail
      eqn:Etail.
    clear Etail.
    assert (Hall : Forall (draws_on_rows x y0 (k0 + S (List.length ls)))
                     tail).
    { eapply Forall_impl; [ | exact IHall].
      intros ev. apply draws_on_rows_weaken. cbn [List.length]. lia. }
    assert (Hinc : forall t evs, t <= y0 + 8 * Z.of_nat (S k0) ->
                                 rows_increase (y0 + 8 * Z.of_nat (S k0)) evs ->
                                 rows_increase t evs).
    { intros t [| [] evs] Ht H; cbn in *; try contradiction; auto.
      split; [lia | apply H]. }
    unfold draw_entry. cbn [fst snd]. destruct l as [| c l].
    + cbn [app List.length]. split; [lia |]. split; [exact Hall |].
      apply Hinc; [lia | exact IHinc].
    + cbn [app List.length rows_increase]. split; [lia |]. split.
      * constructor; [ | exact Hall].
        exists k0, (firstn MAX_LINE (c :: l)). unfold row, LINE_H.
        repeat split; try lia; try discriminate.
        rewrite length_firstn. apply Nat.le_min_l.
      * split; [lia |]. apply Hinc; [lia | exact IHinc].
Qed.

(** X15.  For a text with [n] line breaks, [oled_println_buf] makes at
    most [n + 1] calls of [ssd1306_draw_string], all at column [x]; each
    draws a non-empty string of at most 127 characters on one of the rows
    [y], [y + LINE_H], ..., [y + n * LINE_H], and the rows of successive
    calls go strictly down: no two lines are drawn on the same row. *)
Theorem println_rows :
  forall (x y : Z) (text : cstring),
    Z.of_nat (List.length text) <= INT_MAX ->
    INT_MIN <= y ->
    row y (newline_count (c_str text)) <= INT_MAX ->
    exists evs : list hw_event,
      oled_println_buf x y text = Some evs /\
      (List.length evs <= S (newline_count (c_str text)))%nat /\
      Forall (draws_on_rows x y (newline_count (c_str text))) evs /\
      rows_increase y evs.
Proof.
  intros x y text Hsize Hlo Hhi.
  rewrite (oled_println_buf_layout x y text Hsize).
  pose proof (split_lines_length (c_str text)) as Hlen.
  destruct (split_lines (c_str text)) as [| l ls] eqn:E;
    [discriminate Hlen |].
  cbn [List.length] in Hlen. injection Hlen as Hlen. rewrite <- Hlen in *.
  eexists. split; [reflexivity |].
  pose proof (draw_entries_layout_rows x y ls Hlo l 0) as H.
  cbn [Nat.add] in H.
  replace (row y 0) with y in H by (unfold row, LINE_H; lia).
  apply H. exact Hhi.
Qed.

Lemma println_rows_witness :
  exists evs : list hw_event,
    oled_println_buf 5 0 text_ab_cd = Some evs /\
    (List.length evs <= 4)%nat /\
    rows_increase 0 evs.
Proof.
  destruct (println_rows 5 0 text_ab_cd) as (evs & H1 & H2 & _ & H4).
  - vm_compute. discriminate.
  - vm_compute. discriminate.
  - vm_compute. discriminate.
  - exists evs. repeat split; assumption.
Defined.

(** ** The page renderer *)

Lemma page_at_out_of_range (i : Z) :
  ~ (0 <= i < NUM_PAGES) -> page_at i = None.
Proof.
  rewrite NUM_PAGES_eq. intros H. unfold page_at.
  destruct (Z.ltb_spec i 0) as [Hneg | Hpos]; [reflexivity |].
  apply nth_error_None. change (List.length PAGES) with 4%nat. lia.
Qed.

(** X16.  [render_page] is meaningful exactly for the indices of the
    catalog: it completes for [0 <= page_index < NUM_PAGES], and for any
    other index it reads [PAGES] out of its bounds. *)
Theorem render_page_defined_iff :
  forall i : Z,
    (exists evs, render_page i = Some evs) <-> 0 <= i < NUM_PAGES.
Proof.
  intros i. split.
  - intros [evs H].
    destruct (Z_le_dec 0 i) as [H0 |]; [destruct (Z_lt_dec i NUM_PAGES) |];
      try assumption; try (split; assumption);
      unfold render_page in H; rewrite page_at_out_of_range in H by lia;
      discriminate H.
  - apply render_page_defined.
Qed.

(** X17.  Rendering a page of the catalog clears the buffer first and
    flushes it last, exactly once each; every line of the body is drawn
    at the left margin [x = 5] on a row that ends above the footer row
    ([y + LINE_H <= 56]), so the body never overwrites the footer, and
    the footer fits its 32-byte buffer. *)
Theorem render_page_body_above_footer :
  forall i : Z,
    0 <= i < NUM_PAGES ->
    exists (body : list hw_event) (footer : cstring),
      render_page i
      = Some (Memset_ssd :: body
              ++ [Ssd1306_draw_string 0 56 footer; Render_on_display]) /\
      forallb above_footer body = true /\
      (List.length footer < FOOTER_SIZE)%nat.
Proof.
  intros i Hi. rewrite NUM_PAGES_eq in Hi.
  exists (draw_entries 5
            (layout 0 (split_lines (c_str (nth (Z.to_nat i) PAGES []))))),
         (snprintf_footer FOOTER_SIZE (int_wrap (i + 1)) NUM_PAGES).
  assert (Hc : i = 0 \/ i = 1 \/ i = 2 \/ i = 3) by lia.
  destruct Hc as [-> | [-> | [-> | ->]]];
    (split; [vm_compute; reflexivity |]);
    (split; [vm_compute; reflexivity |]);
    vm_compute; repeat constructor.
Qed.

Lemma render_page_body_above_footer_witness :
  exists (body : list hw_event) (footer : cstring),
    render_page 0
    = Some (Memset_ssd :: body
            ++ [Ssd1306_draw_string 0 56 footer; Render_on_display]) /\
    forallb above_footer body = true.
Proof.
  destruct (render_page_body_above_footer 0) as (body & footer & H1 & H2 & _).
  - rewrite NUM_PAGES_eq. lia.
  - exists body, footer. split; assumption.
Defined.

Lemma render_page_defined_iff_witness :
  exists evs, render_page 3 = Some evs.
Proof.
  apply (proj2 (render_page_defined_iff 3)). rewrite NUM_PAGES_eq. lia.
Defined.

(* ====================================================================== *)
(** * Further properties of the tone generator                             *)
(* ====================================================================== *)

(** X18.  For every frequency [0 < freq_hz < 2^32], every duration and
    every duty a [float] can hold other than NaN, [play_tone] completes:
    it selects the divider 4 or 16 and a wrap value [top] of at most
    65535, writes a level between 0 and [top], sleeps for [ms]
    milliseconds, and writes the level 0 before returning. *)
Theorem play_tone_level_within_top :
  forall (freq_hz ms : Z) (duty : float32),
    0 < freq_hz < 2 ^ 32 ->
    f32_valid duty = true ->
    f32_is_nan duty = false ->
    exists (clk_div : float32) (top level : Z),
      play_tone freq_hz ms duty
      = Some [ Pwm_set_clkdiv clk_div; Pwm_set_wrap top;
               Pwm_set_gpio_level BUZZER_PIN level; Sleep_ms ms;
               Pwm_set_gpio_level BUZZER_PIN 0 ] /\
      (clk_div = f32_4 \/ clk_div = f32_16) /\
      0 <= level <= top /\ top <= 65535.
Proof.
  intros freq_hz ms duty Hf Hvalid Hnan.
  destruct (pwm_config_divider freq_hz Hf)
    as (clk_div & top & Hcfg & Hdiv & Htop).
  destruct (pwm_level_clamped top duty Htop Hvalid Hnan)
    as (level & Hl & Hlevel).
  exists clk_div, top, level.
  split; [apply play_tone_unfold; (assumption || lia) |].
  split; [exact Hdiv | lia].
Qed.

Lemma play_tone_level_within_top_witness :
  exists (clk_div : float32) (top level : Z),
    play_tone 1200 90 f32_0_35
    = Some [ Pwm_set_clkdiv clk_div; Pwm_set_wrap top;
             Pwm_set_gpio_level BUZZER_PIN level; Sleep_ms 90;
             Pwm_set_gpio_level BUZZER_PIN 0 ] /\
    0 <= level <= top /\ top <= 65535.
Proof.
  destruct (play_tone_level_within_top 1200 90 f32_0_35)
    as (clk_div & top & level & H1 & _ & H2).
  - split; reflexivity.
  - reflexivity.
  - reflexivity.
  - exists clk_div, top, level. split; assumption.
Defined.

(* ====================================================================== *)
(** * Further properties of the whole program                              *)
(* ====================================================================== *)

Lemma buzzer_level_app (level : option Z) (evs1 evs2 : list hw_event) :
  buzzer_level level (evs1 ++ evs2)
  = buzzer_level (buzzer_level level evs1) evs2.
Proof. apply fold_left_app. Qed.

Lemma render_page_leaves_buzzer (i : Z) (evs : list hw_event) :
  render_page i = Some evs ->
  forall level, buzzer_level level evs = level.
Proof.
  intros H level.
  destruct (Z_le_dec 0 i) as [H0 | H0];
    [destruct (Z_lt_dec i NUM_PAGES) as [H1 | H1] |].
  - rewrite NUM_PAGES_eq in H1.
    assert (Hc : i = 0 \/ i = 1 \/ i = 2 \/ i = 3) by lia.
    destruct Hc as [-> | [-> | [-> | ->]]];
      vm_compute in H; injection H as <-; reflexivity.
  - unfold render_page in H. rewrite page_at_out_of_range in H by lia.
    discriminate H.
  - unfold render_page in H. rewrite page_at_out_of_range in H by lia.
    discriminate H.
Qed.

Lemma run_call_buzzer (c : call) (evs : list hw_event) :
  run_call c = Some evs ->
  forall level,
    buzzer_level level evs = if is_beep c then Some 0 else level.
Proof.
  destruct c as [| | i | ms]; cbn [run_call is_beep]; intros H level.
  - rewrite beep_first_page_trace in H. injection H as <-. reflexivity.
  - rewrite beep_last_page_trace in H. injection H as <-. reflexivity.
  - now apply render_page_leaves_buzzer with (i := i).
  - injection H as <-. reflexivity.
Qed.

Lemma run_calls_buzzer (calls : list call) :
  forall (evs : list hw_event) (level : option Z),
    run_calls calls = Some evs ->
    buzzer_level level evs
    = if existsb is_beep calls then Some 0 else level.
Proof.
  induction calls as [| c calls IH]; intros evs level H; cbn [run_calls] in H.
  - injection H as <-. reflexivity.
  - destruct (run_call c) as [evs1 |] eqn:E1; [ | discriminate H].
    cbn [bind] in H.
    destruct (run_calls calls) as [evs2 |] eqn:E2; [ | discriminate H].
    cbn [bind] in H. injection H as <-.
    rewrite buzzer_level_app, (run_call_buzzer c evs1 E1).
    rewrite (IH evs2 _ eq_refl). cbn [existsb].
    destruct (is_beep c), (existsb is_beep calls); reflexivity.
Qed.

(** X19.  Whatever the buttons and the clock do, every call made by
    [main] runs to completion (no page outside the catalog is rendered,
    no line overruns [linebuf], no conversion is undefined), and the
    buzzer is silent afterwards: the last level written to its pin is
    0. *)
Theorem main_completes_with_buzzer_silent :
  forall (t0 : Z) (envs : list tick_env),
    exists evs : list hw_event,
      run_calls (snd (main t0 envs)) = Some evs /\
      buzzer_level None evs = Some 0.
Proof.
  intros t0 envs. destruct (main_runs t0 envs) as [evs Hevs].
  exists evs. split; [exact Hevs |].
  rewrite (run_calls_buzzer _ evs None Hevs).
  unfold main. cbn [main_init].
  destruct (main_loop envs (mk_state 0 t0)) as [st calls]. reflexivity.
Qed.
